(** * Antoine vapour-pressure kernel (Antoine_script.py)

    A shallow embedding of the numeric kernel of the dashboard script:
    [calcular_presion_vapor] (the extended Antoine equation),
    [calcular_ebullicion] (the grid search for a boiling temperature) and
    the pair analysis at the end of [actualizar_graficos].

    Python floats and numpy [float64] values are IEEE 754 binary64 numbers;
    they are modelled by Rocq's primitive [float], so that [+], [-], [*], [/],
    [abs] and the comparisons below are the very operations the script
    executes, NaN and infinities included.  The transcendental routines of
    numpy ([np.exp], [np.log] and the power behind [**]) are not determined
    by IEEE 754; the kernel takes them as a parameter (record [numpy]). *)

From Stdlib Require Import Reals Lra.
From Stdlib Require Import ZArith Bool Lia String Ascii List.
From Stdlib Require Uint63.
From Stdlib Require Import Floats.
Import ListNotations.
Set Warnings "-inexact-float".
Local Open Scope float_scope.

(** ** Exceptions *)

(** The exceptions the modelled code can raise.  In Python [IndexError] and
    [KeyError] are the two subclasses of [LookupError]. *)
Inductive exn : Set :=
| ValueError
| IndexError
| KeyError
| AttributeError.

Definition LookupError (e : exn) : bool :=
  match e with
  | IndexError | KeyError => true
  | ValueError | AttributeError => false
  end.

Inductive result (A : Type) : Type :=
| OK (x : A)
| Raise (e : exn).
Arguments OK {A} x.
Arguments Raise {A} e.

Definition bind {A B : Type} (m : result A) (k : A -> result B) : result B :=
  match m with
  | OK x => k x
  | Raise e => Raise e
  end.

Notation "x <- m ;; k" := (bind m (fun x => k))
  (at level 61, m at next level, right associativity).

Fixpoint mapM {A B : Type} (k : A -> result B) (l : list A) : result (list B) :=
  match l with
  | [] => OK []
  | x :: l' => y <- k x ;; ys <- mapM k l' ;; OK (y :: ys)
  end.

(** ** The numpy routines the script calls *)

(** [np.exp], [np.log] and [np.power] (the [**] of arrays and of [float64]
    scalars): total functions on binary64; on invalid or overflowing
    arguments numpy returns a NaN, an infinity or a zero and emits a
    [RuntimeWarning], it does not raise. *)
Record numpy : Type := {
  np_exp : float -> float;
  np_log : float -> float;
  np_power : float -> float -> float
}.

Definition float_of_Z (z : Z) : float :=
  match z with
  | Z0 => 0
  | Zpos _ => of_uint63 (Uint63.of_Z z)
  | Zneg p => - of_uint63 (Uint63.of_Z (Zpos p))
  end.

Definition float_of_nat (n : nat) : float := float_of_Z (Z.of_nat n).

(** [np.arange(0, num)] as floats. *)
Definition arange (num : nat) : list float := map float_of_nat (seq 0 num).

(** [y[-1] = stop] *)
Definition set_last (y : list float) (stop : float) : list float :=
  removelast y ++ [stop].

(** [np.linspace(start, stop, num)] with [endpoint=True], as numpy computes
    it: [arange(0, num) * step + start] with [step = (stop - start) / (num - 1)],
    the last sample overwritten by [stop]. *)
Definition linspace (start stop : float) (num : nat) : list float :=
  let div := (num - 1)%nat in
  let delta := stop - start in
  let y := arange num in
  let y :=
    if (0 <? div)%nat then
      let step := delta / float_of_nat div in
      if step =? 0
      then map (fun v => v / float_of_nat div * delta) y
      else map (fun v => v * step) y
    else map (fun v => v * delta) y in
  let y := map (fun v => v + start) y in
  if (1 <? num)%nat then set_last y stop else y.

(** The scan of [ndarray.argmin] over a float array: [mp] is the running
    minimum, [min_ind] its index, [i] the index of the head of [ip].
    The test is numpy's [!(ip[i] >= mp)]; a NaN ends the scan. *)
Fixpoint argmin_loop (mp : float) (min_ind i : nat) (ip : list float) : nat :=
  match ip with
  | [] => min_ind
  | x :: rest =>
      if negb (mp <=? x) then
        if is_nan x then i else argmin_loop x i (S i) rest
      else argmin_loop mp min_ind (S i) rest
  end.

Definition argmin (arr : list float) : result nat :=
  match arr with
  | [] => Raise ValueError
  | mp :: rest => if is_nan mp then OK 0%nat else OK (argmin_loop mp 0 1 rest)
  end.

(** [arr[idx]] for a non-negative index. *)
Definition getitem {A : Type} (arr : list A) (idx : nat) : result A :=
  match nth_error arr idx with
  | Some x => OK x
  | None => Raise IndexError
  end.

(** ** The kernel *)

(** The fixed search grid of [calcular_ebullicion]. *)
Definition T_range : list float := linspace 200 700 1000.

Section Kernel.

Variable np : numpy.

Definition calcular_presion_vapor (T a b c d e f : float) : float :=
  let lnP := a + b / (T + c) + d * np_log np T + e * np_power np T f in
  np_exp np lnP.

Definition calcular_ebullicion (P_objetivo a b c d e f : float) : result float :=
  let lnP :=
    map (fun T => a + b / (T + c) + d * np_log np T + e * np_power np T f)
        T_range in
  let P_calc := map (np_exp np) lnP in
  idx <- argmin (map (fun P => abs (P - P_objetivo)) P_calc) ;;
  getitem T_range idx.

(** The entry of [np.abs(P_calc - P_objetivo)] at the grid temperature [T]. *)
Definition diferencia (P_objetivo a b c d e f T : float) : float :=
  abs (calcular_presion_vapor T a b c d e f - P_objetivo).

End Kernel.

(** ** Vocabulary of the statements *)

(** [arr[k]], for [k] within bounds. *)
Definition item (arr : list float) (k : nat) : float := nth k arr nan.

(** [m] is the lowest index of a least element among the first [n] entries
    of [arr] (none of which is then a NaN). *)
Definition first_min (arr : list float) (n m : nat) : Prop :=
  (m < n)%nat /\
  (forall k, (k < n)%nat -> (item arr m <=? item arr k) = true) /\
  (forall k, (k < m)%nat -> (item arr k <=? item arr m) = false).

(** [m] is the index of the first NaN of [arr]. *)
Definition first_nan (arr : list float) (m : nat) : Prop :=
  (m < length arr)%nat /\
  is_nan (item arr m) = true /\
  (forall k, (k < m)%nat -> is_nan (item arr k) = false).

(** What [argmin] returns. *)
Definition argmin_post (arr : list float) (idx : nat) : Prop :=
  first_nan arr idx \/ first_min arr (length arr) idx.

(** The real number a finite float stands for: [(-1)^s * m * 2^e]. *)
Definition SF2R (s : spec_float) : option R :=
  match s with
  | S754_zero _ => Some 0%R
  | S754_finite sg m e =>
      Some ((if sg then -1 else 1) * IZR (Zpos m) * powerRZ 2 e)%R
  | S754_infinity _ | S754_nan => None
  end.

Definition real_of (x : float) : option R := SF2R (Prim2SF x).

(** [np.exp] is accurate at [x] within the relative error [u]: its result
    is a number [p] with [|p - exp x| <= u * exp x]. *)
Definition exp_within (np : numpy) (u : R) (x : float) : Prop :=
  exists rx p,
    real_of x = Some rx /\ real_of (np_exp np x) = Some p /\
    (Rabs (p - exp rx) <= u * exp rx)%R.

(** [np.log] is accurate at [y > 0] within the relative error [u]. *)
Definition log_within (np : numpy) (u : R) (y : float) : Prop :=
  exists ry l,
    real_of y = Some ry /\ real_of (np_log np y) = Some l /\
    (0 < ry)%R /\ (Rabs (l - ln ry) <= u * Rabs (ln ry))%R.




(** Rounded squares of the numerator [c] of a fraction [c / 2^100]. *)
Definition square_down (c : Z) : Z := (c * c / 2 ^ 100)%Z.
Definition square_up (d : Z) : Z := ((d * d + (2 ^ 100 - 1)) / 2 ^ 100)%Z.

(** [x] equals [y] within the relative tolerance [tol]. *)
Definition within_rel_tol (x y tol : float) : bool :=
  abs (x - y) <=? tol * abs y.

(** The exponent of the example of the specification, [a = 16.3872],
    [b = -3885.70], [c = 230.170] and [d = e = f = 0], at temperature [T]. *)
Definition lnP_agua (T : float) : float := 16.3872 + -3885.70 / (T + 230.170).

(** The spacing of the search grid, [(700 - 200) / 999], about [0.5005]. *)
Definition paso : float := (700 - 200) / float_of_nat 999.

Fixpoint ascending (g : list float) : bool :=
  match g with
  | x :: (y :: _) as rest => (x <? y) && ascending rest
  | _ => true
  end.

(** Differences of consecutive samples. *)
Definition gaps (g : list float) : list float :=
  map (fun p => snd p - fst p) (combine g (tl g)).

(** [g] is the ordered sequence of [num] samples from [start] to [stop]:
    sample [k] is [k] steps above [start] (as binary64 arithmetic rounds
    it), the last one is [stop], the samples increase strictly and stay
    within the bounds, and consecutive samples differ by one step up to
    [tol]. *)
Definition evenly_spaced (g : list float) (start stop : float) (num : nat)
    (tol : float) : Prop :=
  let step := (stop - start) / float_of_nat (num - 1) in
  length g = num /\
  (forall k, (k < num - 1)%nat -> item g k = float_of_nat k * step + start) /\
  item g (num - 1) = stop /\
  (forall k, (S k < num)%nat -> (item g k <? item g (S k)) = true) /\
  (forall k, (k < num)%nat ->
     (start <=? item g k) = true /\ (item g k <=? stop) = true) /\
  (forall k, (S k < num)%nat ->
     (abs ((item g (S k) - item g k) - step) <=? tol) = true).

(** ** The coefficient table and the pair analysis *)

(** A row of the data frame [df], columns
    [['Component', 'a', 'b', 'c', 'd', 'e', 'f']]. *)
Record fila : Type := {
  Component : string;
  col_a : float;
  col_b : float;
  col_c : float;
  col_d : float;
  col_e : float;
  col_f : float
}.

Definition DataFrame : Type := list fila.

(** [s.split(sep)] for a one-character separator. *)
Fixpoint split (sep : ascii) (s : string) : list string :=
  match s with
  | EmptyString => [EmptyString]
  | String ch rest =>
      if Ascii.eqb ch sep then EmptyString :: split sep rest
      else
        match split sep rest with
        | [] => [String ch EmptyString]
        | w :: ws => String ch w :: ws
        end
  end.

(** [df[df["Component"] == nombre]] *)
Definition seleccionar (df : DataFrame) (nombre : string) : DataFrame :=
  filter (fun r => String.eqb (Component r) nombre) df.

(** [.iloc[0]]: pandas raises [IndexError] on an empty frame. *)
Definition iloc0 (rows : DataFrame) : result fila :=
  match rows with
  | [] => Raise IndexError
  | r :: _ => OK r
  end.

(** The data handed to the four figures of the dashboard. *)
Record figuras : Type := {
  fig_presion : list (string * list float * list float);
  fig_ebullicion : list (string * float);
  fig_dif : string * float;
  fig_dif_vs_P : list float * list float
}.

Section Dashboard.

Variable np : numpy.
Variable df : DataFrame.

Definition ebullicion_fila (P : float) (r : fila) : result float :=
  calcular_ebullicion np P (col_a r) (col_b r) (col_c r) (col_d r) (col_e r) (col_f r).

(** The body of the loop over [df_filtrado.iterrows()]: the pressure
    trace is added first, then the boiling-point bar; the bare [except]
    skips what is left of the iteration. *)
Definition trazar (T_plot : list float) (Ptarget : float)
    (figs : list (string * list float * list float) * list (string * float))
    (row : fila)
  : list (string * list float * list float) * list (string * float) :=
  let nombre := Component row in
  let P :=
    map (fun T => calcular_presion_vapor np T (col_a row) (col_b row) (col_c row)
                    (col_d row) (col_e row) (col_f row)) T_plot in
  let presion := fst figs ++ [(nombre, T_plot, P)] in
  match ebullicion_fila Ptarget row with
  | OK T_eb => (presion, snd figs ++ [(nombre, T_eb)])
  | Raise _ => (presion, snd figs)
  end.

Definition actualizar_graficos (Tmin Tmax Ptarget : float)
    (componentes_seleccionados : list string) (par_componentes : string)
  : result figuras :=
  let T_plot := linspace Tmin Tmax 300 in
  let df_filtrado :=
    filter (fun r => existsb (String.eqb (Component r)) componentes_seleccionados) df in
  let figs := fold_left (trazar T_plot Ptarget) df_filtrado ([], []) in
  match split "|"%char par_componentes with
  | [nombre1; nombre2] =>
      fila1 <- iloc0 (seleccionar df nombre1) ;;
      fila2 <- iloc0 (seleccionar df nombre2) ;;
      T1 <- ebullicion_fila Ptarget fila1 ;;
      T2 <- ebullicion_fila Ptarget fila2 ;;
      let presiones := linspace 10 5000 200 in
      diferencias <-
        mapM (fun P =>
                t1 <- ebullicion_fila P fila1 ;;
                t2 <- ebullicion_fila P fila2 ;;
                OK (abs (t2 - t1)))
             presiones ;;
      OK {| fig_presion := fst figs;
            fig_ebullicion := snd figs;
            fig_dif := ((nombre2 ++ " - " ++ nombre1)%string, abs (T2 - T1));
            fig_dif_vs_P := (presiones, diferencias) |}
  | _ => Raise ValueError
  end.

(** The callback as Dash calls it.  The pair selector can be cleared; its
    value is then [None], and [par_componentes.split] at line 97 raises
    [AttributeError] (lines 77 to 95 raise nothing before it).  Any other
    value is the string of an option, handled by [actualizar_graficos]. *)
Definition actualizar_graficos_llamada (Tmin Tmax Ptarget : float)
    (componentes_seleccionados : list string) (par_componentes : option string)
  : result figuras :=
  match par_componentes with
  | None => Raise AttributeError
  | Some par => actualizar_graficos Tmin Tmax Ptarget componentes_seleccionados par
  end.

End Dashboard.

(** A one-row coefficient table, for concrete runs. *)
Definition tabla_ejemplo : DataFrame :=
  [ {| Component := "agua"; col_a := 16.3872; col_b := -3885.70;
       col_c := -42.98; col_d := 0; col_e := 0; col_f := 0 |} ].

(** [r] is the first row of [df] whose component is [nombre]. *)
Definition primera_fila (df : DataFrame) (nombre : string) (r : fila) : Prop :=
  exists antes despues,
    df = antes ++ r :: despues /\
    Component r = nombre /\
    forall r', In r' antes -> Component r' <> nombre.

(** The rows [actualizar_graficos] draws: those whose component is selected. *)
Definition df_filtrado (df : DataFrame) (componentes_seleccionados : list string)
  : DataFrame :=
  filter (fun r => existsb (String.eqb (Component r)) componentes_seleccionados) df.

(** A two-row coefficient table, for concrete runs of the dashboard. *)
Definition tabla_dos : DataFrame :=
  [ {| Component := "agua"; col_a := 16.3872; col_b := -3885.70;
       col_c := -42.98; col_d := 0; col_e := 0; col_f := 0 |};
    {| Component := "etanol"; col_a := 16.8958; col_b := -3795.17;
       col_c := -42.232; col_d := 0; col_e := 0; col_f := 0 |} ].

(** ** The layout: component list and pair selector *)

(** Number of occurrences of the character [sep] in [s]. *)
Fixpoint ocurrencias (sep : ascii) (s : string) : nat :=
  match s with
  | EmptyString => 0
  | String ch rest =>
      if Ascii.eqb ch sep then S (ocurrencias sep rest) else ocurrencias sep rest
  end.

(** [Series.unique()]: the distinct values in order of first appearance. *)
Fixpoint unique_desde (vistos : list string) (l : list string) : list string :=
  match l with
  | [] => []
  | x :: rest =>
      if existsb (String.eqb x) vistos then unique_desde vistos rest
      else x :: unique_desde (x :: vistos) rest
  end.

Definition unique (l : list string) : list string := unique_desde [] l.

(** [componentes_disponibles = df['Component'].unique()] *)
Definition componentes_disponibles (df : DataFrame) : list string :=
  unique (map Component df).

(** [enumerate(l)] *)
Definition enumerate {A : Type} (l : list A) : list (nat * A) :=
  combine (seq 0 (length l)) l.

(** The [options] of the dropdown [par_componentes], as (label, value) pairs:
    one entry for every [i < j]. *)
Definition opciones_par (cs : list string) : list (string * string) :=
  flat_map
    (fun ic1 =>
       flat_map
         (fun jc2 =>
            if (fst ic1 <? fst jc2)%nat
            then [((snd ic1 ++ " - " ++ snd jc2)%string,
                   (snd ic1 ++ "|" ++ snd jc2)%string)]
            else [])
         (enumerate cs))
    (enumerate cs).

(** The initial [value] of that dropdown, built from the first two
    components; indexing past the end raises [IndexError]. *)
Definition valor_par_inicial (cs : list string) : result string :=
  c0 <- getitem cs 0 ;;
  c1 <- getitem cs 1 ;;
  OK (c0 ++ "|" ++ c1)%string.

(** Every entry of [l] paired with every later one. *)
Fixpoint pares (l : list string) : list (string * string) :=
  match l with
  | [] => []
  | c1 :: rest => map (fun c2 => (c1, c2)) rest ++ pares rest
  end.

(** ** A reference instance of [numpy]

    One concrete libm on binary64, used to run the kernel on concrete
    inputs.  [exp] and [log] have the special values that [ieee_special]
    lists below and are otherwise computed by argument reduction and a
    truncated series; of their accuracy the statements use only what the
    evaluations they make show.  [power] is a stand-in, not numpy's power:
    it returns 1 for a zero exponent (the only case the concrete runs use,
    all with [f = 0]) and otherwise [exp (y * log x)], which is inexact on
    exact powers and does not implement the special cases of C99's [pow]
    (the sign of a zero base, infinite exponents).  No statement about an
    arbitrary [numpy] depends on this module. *)
Module Ref.

Definition ln2_hi : float := 0x1.62e42fee00000p-1.
Definition ln2_lo : float := 0x1.a39ef35793c76p-33.
Definition log2e : float := 0x1.71547652b82fep+0.
Definition sqrt_half : float := 0x1.6a09e667f3bcdp-1.

(** [1.5 * 2^52]: adding it rounds a small float to the nearest integer
    and leaves that integer in the mantissa. *)
Definition magic : float := 0x1.8p+52.

Definition Z_of_rounded (k : float) : Z :=
  (Uint63.to_Z (normfr_mantissa (fst (frshiftexp (k + magic)))) - 6755399441055744)%Z.

Definition exp_series (r : float) : float :=
  fold_left (fun acc n => 1 + r / n * acc)
            [13; 12; 11; 10; 9; 8; 7; 6; 5; 4; 3; 2; 1] 1.

Definition exp (x : float) : float :=
  if is_nan x then nan
  else if 710 <=? x then infinity
  else if x <=? -746 then 0
  else
    let k := (x * log2e + magic) - magic in
    let r := (x - k * ln2_hi) - k * ln2_lo in
    Z.ldexp (exp_series r) (Z_of_rounded k).

Definition atanh_series (s2 : float) : float :=
  fold_left (fun acc n => 1 / n + s2 * acc)
            [21; 19; 17; 15; 13; 11; 9; 7; 5; 3; 1] 0.

Definition log (x : float) : float :=
  if is_nan x then nan
  else if x <? 0 then nan
  else if x =? 0 then neg_infinity
  else if x =? infinity then infinity
  else if x =? 1 then 0
  else
    let (m, e) := Z.frexp x in
    let (m, e) := if m <? sqrt_half then (m * 2, (e - 1)%Z) else (m, e) in
    let s := (m - 1) / (m + 1) in
    let lm := 2 * s * atanh_series (s * s) in
    float_of_Z e * ln2_hi + (lm + float_of_Z e * ln2_lo).

(** [y] is an integer (every float of magnitude [2^52] or more is). *)
Definition is_integer (y : float) : bool :=
  let m := abs y in
  if 0x1p+52 <=? m then true else ((m + 0x1p+52) - 0x1p+52 =? m).

Definition is_odd (y : float) : bool :=
  is_integer y && negb (is_integer (y / 2)).

Definition power (x y : float) : float :=
  if y =? 0 then 1
  else if x =? 1 then 1
  else if is_nan x || is_nan y then nan
  else if 0 <? x then exp (y * log x)
  else if x =? 0 then (if 0 <? y then 0 else infinity)
  else if is_integer y then
    let r := exp (y * log (- x)) in
    if is_odd y then - r else r
  else nan.

Definition np : numpy :=
  {| np_exp := exp; np_log := log; np_power := power |}.

End Ref.

(** ** What IEEE 754 and C99 Annex F fix about the transcendental routines

    The special values of [exp], [log] and [pow], and the range of [exp]:
    [e^710] exceeds the largest binary64 number and [e^-746] is below half
    the smallest one. *)
Record ieee_special (np : numpy) : Prop := {
  exp_nan : forall x, is_nan x = true -> is_nan (np_exp np x) = true;
  exp_overflow : forall x, (710 <=? x) = true -> np_exp np x = infinity;
  exp_underflow : forall x, (x <=? -746) = true -> np_exp np x = 0;
  log_nan : forall x, is_nan x = true -> is_nan (np_log np x) = true;
  log_negative : forall x, (x <? 0) = true -> is_nan (np_log np x) = true;
  log_zero : forall x, (x =? 0) = true -> np_log np x = neg_infinity;
  log_infinity : np_log np infinity = infinity;
  log_one : np_log np 1 = 0;
  power_zero : forall x y, (y =? 0) = true -> np_power np x y = 1
}.

(** * Facts about binary64 arithmetic

    Derived from the specification [Prim2SF] of the primitive operations
    (module [FloatAxioms] of the standard library). *)

Module IEEE.

(** The class of a float: NaN, infinite, or neither. *)
Definition SFnan (s : spec_float) : bool :=
  match s with S754_nan => true | _ => false end.

Definition SFinf (s : spec_float) : bool :=
  match s with S754_infinity _ => true | _ => false end.

Definition SFzero (s : spec_float) : bool :=
  match s with S754_zero _ => true | _ => false end.

(** A position in a total order for every float but NaN: the class
    ([-2] for [-inf], [-1] for negative, [0] for both zeros, [1] for
    positive, [2] for [+inf]), then the exponent and the mantissa, both
    negated for negative numbers. *)
Definition SFkey (s : spec_float) : option (Z * Z * Z) :=
  match s with
  | S754_nan => None
  | S754_zero _ => Some (0, 0, 0)%Z
  | S754_infinity false => Some (2, 0, 0)%Z
  | S754_infinity true => Some (-2, 0, 0)%Z
  | S754_finite false m e => Some (1, e, Zpos m)%Z
  | S754_finite true m e => Some (-1, - e, Zneg m)%Z
  end.

Definition key (x : float) : option (Z * Z * Z) := SFkey (Prim2SF x).

Definition lexcmp (p q : Z * Z * Z) : comparison :=
  let '(a1, b1, c1) := p in
  let '(a2, b2, c2) := q in
  match (a1 ?= a2)%Z with
  | Eq => match (b1 ?= b2)%Z with Eq => (c1 ?= c2)%Z | r => r end
  | r => r
  end.

Definition lexlt (p q : Z * Z * Z) : Prop :=
  let '(a1, b1, c1) := p in
  let '(a2, b2, c2) := q in
  (a1 < a2 \/ (a1 = a2 /\ (b1 < b2 \/ (b1 = b2 /\ c1 < c2))))%Z.

Lemma lexcmp_Lt p q : lexcmp p q = Lt <-> lexlt p q.
Proof.
  destruct p as [[a1 b1] c1], q as [[a2 b2] c2]; unfold lexcmp, lexlt.
  destruct (Z.compare_spec a1 a2), (Z.compare_spec b1 b2), (Z.compare_spec c1 c2);
    split; intros; try discriminate; try reflexivity; lia.
Qed.

Lemma lexcmp_Eq p q : lexcmp p q = Eq <-> p = q.
Proof.
  destruct p as [[a1 b1] c1], q as [[a2 b2] c2]; unfold lexcmp.
  destruct (Z.compare_spec a1 a2), (Z.compare_spec b1 b2), (Z.compare_spec c1 c2);
    split; intros H'; try discriminate; try reflexivity;
    try (injection H'; intros); try lia; subst; reflexivity.
Qed.

Lemma lexcmp_Gt p q : lexcmp p q = Gt <-> lexlt q p.
Proof.
  destruct p as [[a1 b1] c1], q as [[a2 b2] c2]; unfold lexcmp, lexlt.
  destruct (Z.compare_spec a1 a2), (Z.compare_spec b1 b2), (Z.compare_spec c1 c2);
    split; intros; try discriminate; try reflexivity; lia.
Qed.

Lemma SFcompare_key s1 s2 :
  SFcompare s1 s2 =
  match SFkey s1, SFkey s2 with
  | Some p, Some q => Some (lexcmp p q)
  | _, _ => None
  end.
Proof.
  destruct s1 as [[|]|[|]| |[|] m1 e1], s2 as [[|]|[|]| |[|] m2 e2];
    try reflexivity.
  cbn [SFcompare SFkey lexcmp]. change (-1 ?= -1)%Z with Eq.
  rewrite Z.compare_opp, (Z.compare_antisym e1 e2).
  destruct (e1 ?= e2)%Z; reflexivity.
Qed.

Lemma leb_key x y :
  (x <=? y) =
  match key x, key y with
  | Some p, Some q => match lexcmp p q with Gt => false | _ => true end
  | _, _ => false
  end.
Proof.
  rewrite FloatAxioms.leb_spec. unfold SFleb, key. rewrite SFcompare_key.
  destruct (SFkey (Prim2SF x)), (SFkey (Prim2SF y)); reflexivity.
Qed.

Lemma ltb_key x y :
  (x <? y) =
  match key x, key y with
  | Some p, Some q => match lexcmp p q with Lt => true | _ => false end
  | _, _ => false
  end.
Proof.
  rewrite FloatAxioms.ltb_spec. unfold SFltb, key. rewrite SFcompare_key.
  destruct (SFkey (Prim2SF x)), (SFkey (Prim2SF y)); reflexivity.
Qed.

Lemma eqb_key x y :
  (x =? y) =
  match key x, key y with
  | Some p, Some q => match lexcmp p q with Eq => true | _ => false end
  | _, _ => false
  end.
Proof.
  rewrite FloatAxioms.eqb_spec. unfold SFeqb, key. rewrite SFcompare_key.
  destruct (SFkey (Prim2SF x)), (SFkey (Prim2SF y)); reflexivity.
Qed.

Lemma lexcmp_refl p : lexcmp p p = Eq.
Proof. apply lexcmp_Eq. reflexivity. Qed.

Lemma is_nan_key x :
  is_nan x = match key x with None => true | Some _ => false end.
Proof.
  unfold is_nan. rewrite eqb_key. destruct (key x) as [p|]; [|reflexivity].
  rewrite lexcmp_refl. reflexivity.
Qed.

Lemma lexcmp_cases a1 b1 c1 a2 b2 c2 :
  match lexcmp (a1, b1, c1) (a2, b2, c2) with
  | Eq => (a1 = a2 /\ b1 = b2 /\ c1 = c2)%Z
  | Lt => lexlt (a1, b1, c1) (a2, b2, c2)
  | Gt => lexlt (a2, b2, c2) (a1, b1, c1)
  end.
Proof.
  destruct (lexcmp (a1, b1, c1) (a2, b2, c2)) eqn:E.
  - apply lexcmp_Eq in E. injection E as -> -> ->. auto.
  - now apply lexcmp_Lt.
  - now apply lexcmp_Gt.
Qed.

(** Turns comparisons of floats into linear arithmetic on their keys. *)
Ltac split_lexcmp :=
  match goal with
  | H : context [lexcmp (?a1, ?b1, ?c1) (?a2, ?b2, ?c2)] |- _ =>
      let E := fresh "E" in
      pose proof (lexcmp_cases a1 b1 c1 a2 b2 c2) as E;
      destruct (lexcmp (a1, b1, c1) (a2, b2, c2)); cbn [lexlt] in E
  | |- context [lexcmp (?a1, ?b1, ?c1) (?a2, ?b2, ?c2)] =>
      let E := fresh "E" in
      pose proof (lexcmp_cases a1 b1 c1 a2 b2 c2) as E;
      destruct (lexcmp (a1, b1, c1) (a2, b2, c2)); cbn [lexlt] in E
  end.

Ltac split_key :=
  match goal with
  | |- context [key ?x] => destruct (key x) as [[[? ?] ?]|]
  | H : context [key ?x] |- _ => destruct (key x) as [[[? ?] ?]|]
  end.

Ltac to_keys :=
  rewrite ?leb_key, ?ltb_key, ?eqb_key, ?is_nan_key in *;
  repeat split_key;
  try discriminate; try reflexivity;
  repeat split_lexcmp;
  try discriminate; try reflexivity; try (exfalso; lia).

Lemma leb_refl x : is_nan x = false -> (x <=? x) = true.
Proof. intros H. to_keys. Qed.

Lemma leb_trans x y z : (x <=? y) = true -> (y <=? z) = true -> (x <=? z) = true.
Proof. intros H1 H2. to_keys. Qed.

Lemma leb_not_nan x y :
  (x <=? y) = true -> is_nan x = false /\ is_nan y = false.
Proof. intros H. split; to_keys. Qed.

Lemma leb_false_ltb x y :
  is_nan x = false -> is_nan y = false -> (x <=? y) = false -> (y <? x) = true.
Proof. intros H1 H2 H3. to_keys. Qed.

Lemma ltb_leb x y : (x <? y) = true -> (x <=? y) = true.
Proof. intros H. to_keys. Qed.

Lemma leb_ltb_false x y : (x <=? y) = true -> (y <? x) = false.
Proof. intros H. to_keys. Qed.

Lemma ltb_false_leb x y :
  is_nan x = false -> is_nan y = false -> (x <? y) = false -> (y <=? x) = true.
Proof. intros H1 H2 H3. to_keys. Qed.

Lemma ltb_leb_trans x y z : (x <? y) = true -> (y <=? z) = true -> (x <? z) = true.
Proof. intros H1 H2. to_keys. Qed.

Lemma leb_antisym x y : (x <=? y) = true -> (y <=? x) = true -> (x =? y) = true.
Proof. intros H1 H2. to_keys. Qed.

Lemma leb_cases x y : (x <=? y) = true -> (x <? y) = true \/ (x =? y) = true.
Proof.
  intros H. destruct (x <? y) eqn:E; [now left|right]. to_keys.
Qed.

Lemma ltb_nan_r x y : is_nan y = true -> (x <? y) = false.
Proof. intros H. to_keys. Qed.

Lemma leb_nan_r x y : is_nan y = true -> (x <=? y) = false.
Proof. intros H. to_keys. Qed.

Lemma leb_nan_l x y : is_nan x = true -> (x <=? y) = false.
Proof. intros H. to_keys. Qed.

(** *** Classes of floats *)

Lemma Prim2SF_infinity : Prim2SF infinity = S754_infinity false.
Proof. vm_compute. reflexivity. Qed.

Lemma Prim2SF_neg_infinity : Prim2SF neg_infinity = S754_infinity true.
Proof. vm_compute. reflexivity. Qed.

Lemma Prim2SF_zero : Prim2SF 0 = S754_zero false.
Proof. vm_compute. reflexivity. Qed.

Lemma is_nan_SF x : is_nan x = SFnan (Prim2SF x).
Proof.
  rewrite is_nan_key. unfold key.
  destruct (Prim2SF x) as [[|]|[|]| |[|] m e]; reflexivity.
Qed.

Lemma is_infinity_SF x : is_infinity x = SFinf (Prim2SF x).
Proof.
  unfold is_infinity.
  rewrite FloatAxioms.eqb_spec, abs_spec, Prim2SF_infinity.
  destruct (Prim2SF x) as [[|]|[|]| |[|] m e]; reflexivity.
Qed.

Lemma is_finite_SF x :
  is_finite x = negb (SFnan (Prim2SF x) || SFinf (Prim2SF x)).
Proof. unfold is_finite. rewrite is_nan_SF, is_infinity_SF. reflexivity. Qed.

Lemma is_zero_SF x : (x =? 0) = SFzero (Prim2SF x).
Proof.
  rewrite FloatAxioms.eqb_spec, Prim2SF_zero.
  destruct (Prim2SF x) as [[|]|[|]| |[|] m e]; reflexivity.
Qed.

Lemma is_nan_eq x : is_nan x = true -> x = nan.
Proof.
  rewrite is_nan_SF. intros H. apply Prim2SF_inj.
  destruct (Prim2SF x); try discriminate. vm_compute. reflexivity.
Qed.

Lemma nonfinite_cases x :
  is_finite x = false -> is_nan x = true \/ x = infinity \/ x = neg_infinity.
Proof.
  rewrite is_finite_SF, is_nan_SF. intros H.
  destruct (Prim2SF x) as [s|[|]| |s m e] eqn:E; try discriminate.
  - right; right. apply Prim2SF_inj. now rewrite E, Prim2SF_neg_infinity.
  - right; left. apply Prim2SF_inj. now rewrite E, Prim2SF_infinity.
  - now left.
Qed.

Lemma finite_not_nan x : is_finite x = true -> is_nan x = false.
Proof.
  rewrite is_finite_SF, is_nan_SF. destruct (Prim2SF x); try discriminate; reflexivity.
Qed.

Lemma leb_leb_finite lo hi x :
  is_finite lo = true -> is_finite hi = true ->
  (lo <=? x) = true -> (x <=? hi) = true -> is_finite x = true.
Proof.
  rewrite !is_finite_SF, !FloatAxioms.leb_spec.
  destruct (Prim2SF lo) as [?|?| |? ? ?], (Prim2SF hi) as [?|?| |? ? ?];
    try discriminate; intros _ _;
    destruct (Prim2SF x) as [?|[|]| |[|] ? ?]; try discriminate; reflexivity.
Qed.

(** *** NaN and infinities through the arithmetic operations *)

Lemma abs_nan x : is_nan (abs x) = is_nan x.
Proof. rewrite !is_nan_SF, abs_spec. destruct (Prim2SF x); reflexivity. Qed.

Lemma add_nonfinite_l x y : is_finite x = false -> is_finite (x + y) = false.
Proof.
  rewrite !is_finite_SF, add_spec.
  destruct (Prim2SF x) as [?|[|]| |? ? ?]; try discriminate; intros _;
    destruct (Prim2SF y) as [?|[|]| |? ? ?]; reflexivity.
Qed.

Lemma add_nonfinite_r x y : is_finite y = false -> is_finite (x + y) = false.
Proof.
  rewrite !is_finite_SF, add_spec.
  destruct (Prim2SF y) as [?|[|]| |? ? ?]; try discriminate; intros _;
    destruct (Prim2SF x) as [?|[|]| |? ? ?]; reflexivity.
Qed.

Lemma add_nan_l x y : is_nan x = true -> is_nan (x + y) = true.
Proof.
  rewrite !is_nan_SF, add_spec.
  destruct (Prim2SF x); try discriminate; reflexivity.
Qed.

Lemma add_nan_r x y : is_nan y = true -> is_nan (x + y) = true.
Proof.
  rewrite !is_nan_SF, add_spec.
  destruct (Prim2SF y); try discriminate; intros _; destruct (Prim2SF x); reflexivity.
Qed.

Lemma mul_nonfinite_r x y : is_finite y = false -> is_finite (x * y) = false.
Proof.
  rewrite !is_finite_SF, mul_spec.
  destruct (Prim2SF y) as [?|?| |? ? ?]; try discriminate; intros _;
    destruct (Prim2SF x) as [?|?| |? ? ?]; reflexivity.
Qed.

Lemma mul_nan_r x y : is_nan y = true -> is_nan (x * y) = true.
Proof.
  rewrite !is_nan_SF, mul_spec.
  destruct (Prim2SF y); try discriminate; intros _; destruct (Prim2SF x); reflexivity.
Qed.

Lemma div_zero_nonfinite x y : (y =? 0) = true -> is_finite (x / y) = false.
Proof.
  rewrite is_zero_SF, is_finite_SF, div_spec.
  destruct (Prim2SF y) as [?|?| |? ? ?]; try discriminate; intros _;
    destruct (Prim2SF x) as [?|?| |? ? ?]; reflexivity.
Qed.

Lemma zero_div_zero x y : (x =? 0) = true -> (y =? 0) = true -> is_nan (x / y) = true.
Proof.
  rewrite !is_zero_SF, is_nan_SF, div_spec.
  destruct (Prim2SF x); try discriminate; destruct (Prim2SF y); try discriminate.
  reflexivity.
Qed.

Lemma sub_nan_l x y : is_nan x = true -> is_nan (x - y) = true.
Proof.
  rewrite !is_nan_SF, sub_spec.
  destruct (Prim2SF x); try discriminate; reflexivity.
Qed.

Lemma sub_nan_r x y : is_nan y = true -> is_nan (x - y) = true.
Proof.
  rewrite !is_nan_SF, sub_spec.
  destruct (Prim2SF y); try discriminate; intros _; destruct (Prim2SF x); reflexivity.
Qed.

(** *** Rounding never produces a NaN *)

Section Rounding.

Variables prec emax : Z.

Lemma iter_pos_invariant {A : Type} (P : A -> Prop) (g : A -> A) :
  (forall x, P x -> P (g x)) ->
  forall p x, P x -> P (iter_pos g p x).
Proof.
  intros Hg. induction p as [p IH|p IH|]; intros x Hx; cbn [iter_pos]; auto.
Qed.

Lemma shr_1_nonneg mrs : (0 <= shr_m mrs)%Z -> (0 <= shr_m (shr_1 mrs))%Z.
Proof.
  destruct mrs as [m r s]. cbn [shr_m shr_1].
  destruct m as [|[p|p|]|p]; cbn [shr_m]; lia.
Qed.

Lemma shr_fexp_nonneg m e l :
  (0 <= m)%Z -> (0 <= shr_m (fst (shr_fexp prec emax m e l)))%Z.
Proof.
  intros Hm. unfold shr_fexp, shr.
  assert (H0 : (0 <= shr_m (shr_record_of_loc m l))%Z)
    by (destruct l as [|[| |]]; exact Hm).
  destruct (fexp prec emax (Zdigits2 m + e) - e)%Z; cbn [fst]; auto.
  apply (iter_pos_invariant (fun r => (0 <= shr_m r)%Z)); auto using shr_1_nonneg.
Qed.

Lemma round_nearest_even_nonneg m l :
  (0 <= m)%Z -> (0 <= round_nearest_even m l)%Z.
Proof.
  intros Hm. destruct l as [|[| |]]; cbn [round_nearest_even]; try lia.
  destruct (Z.even m); lia.
Qed.

Lemma binary_round_aux_not_nan sx mx ex lx :
  (0 <= mx)%Z -> SFnan (binary_round_aux prec emax sx mx ex lx) = false.
Proof.
  intros Hm. unfold binary_round_aux.
  pose proof (shr_fexp_nonneg mx ex lx Hm) as H1.
  destruct (shr_fexp prec emax mx ex lx) as [mrs' e']. cbn [fst] in H1.
  pose proof (shr_fexp_nonneg _ e' loc_Exact
                (round_nearest_even_nonneg _ (loc_of_shr_record mrs') H1)) as H2.
  destruct (shr_fexp prec emax _ e' loc_Exact) as [mrs'' e'']. cbn [fst] in H2.
  destruct (shr_m mrs'') as [|m|m]; [reflexivity| |lia].
  destruct (e'' <=? emax - prec)%Z; reflexivity.
Qed.

Lemma binary_normalize_not_nan m e sz :
  SFnan (binary_normalize prec emax m e sz) = false.
Proof.
  destruct m as [|m|m]; [reflexivity| |]; cbn [binary_normalize];
    unfold binary_round;
    destruct (shl_align _ _ _) as [mz ez];
    apply binary_round_aux_not_nan; lia.
Qed.

End Rounding.

Lemma sub_finite_nan x y : is_finite y = true -> is_nan (x - y) = is_nan x.
Proof.
  rewrite is_finite_SF, !is_nan_SF, sub_spec. unfold SF64sub, SFsub.
  destruct (Prim2SF y) as [sy|sy| |sy my ey]; try discriminate; intros _;
    destruct (Prim2SF x) as [[|]|sx| |sx mx ex]; try reflexivity;
    try (destruct sy; reflexivity).
  apply binary_normalize_not_nan.
Qed.

Lemma abs_sub_nan x y : is_finite y = true -> is_nan (abs (x - y)) = is_nan x.
Proof. intros H. rewrite abs_nan. now apply sub_finite_nan. Qed.


(** *** Zero terms *)

Lemma mul_zero_finite y : is_finite y = true -> (0 * y =? 0) = true.
Proof.
  rewrite is_finite_SF, is_zero_SF, mul_spec, Prim2SF_zero.
  destruct (Prim2SF y); try discriminate; reflexivity.
Qed.

(** Adding a zero of either sign to a finite non-zero number changes nothing. *)
Lemma add_zero_r x z :
  is_finite x = true -> (x =? 0) = false -> (z =? 0) = true -> x + z = x.
Proof.
  rewrite is_finite_SF, !is_zero_SF. intros Hx Hnz Hz.
  apply Prim2SF_inj. rewrite add_spec.
  destruct (Prim2SF x) as [?|?| |sx mx ex]; try discriminate.
  destruct (Prim2SF z); try discriminate. reflexivity.
Qed.

End IEEE.

(** * A difference of two different numbers is not zero *)

Section Subtraction.

Import IEEE.

Local Open Scope Z_scope.

















Local Close Scope Z_scope.





End Subtraction.

(** * Finite floats as integers: order, rounding, differences *)

Section Scaled.

Import IEEE.
Local Open Scope Z_scope.








End Scaled.

Section RoundSpec.

Import IEEE.
Local Open Scope Z_scope.







End RoundSpec.

Section SubSpec.

Import IEEE.
Local Open Scope Z_scope.















End SubSpec.

Section Doubling.

Import IEEE.
Local Open Scope Z_scope.



End Doubling.

(** * Differences of finite floats *)

Section FiniteFloats.

Import IEEE.









End FiniteFloats.

(** * The scan of [argmin] *)

Section Argmin.

Import IEEE.

Lemma item_app_r pre x rest : item (pre ++ x :: rest) (length pre) = x.
Proof. unfold item. now rewrite nth_middle. Qed.

Lemma first_min_not_nan arr n m k :
  first_min arr n m -> (k < n)%nat -> is_nan (item arr k) = false.
Proof.
  intros (_ & Hle & _) Hk. exact (proj2 (leb_not_nan _ _ (Hle k Hk))).
Qed.

Lemma first_min_keep arr n m :
  first_min arr n m -> (item arr m <=? item arr n) = true ->
  first_min arr (S n) m.
Proof.
  intros (Hm & Hle & Hlt) Hn. repeat split; auto.
  intros k Hk. destruct (Nat.eq_dec k n) as [->|Hne]; [assumption|].
  apply Hle. lia.
Qed.

Lemma first_min_update arr n m :
  first_min arr n m -> is_nan (item arr n) = false ->
  (item arr m <=? item arr n) = false ->
  first_min arr (S n) n.
Proof.
  intros (Hm & Hle & Hlt) Hnan Hn.
  assert (Hmn : (item arr n <? item arr m) = true).
  { apply leb_false_ltb; auto. exact (proj1 (leb_not_nan _ _ (Hle m Hm))). }
  repeat split.
  - lia.
  - intros k Hk. destruct (Nat.eq_dec k n) as [->|Hne].
    + now apply leb_refl.
    + apply ltb_leb, (ltb_leb_trans _ (item arr m)); auto. apply Hle. lia.
  - intros k Hk. destruct (item arr k <=? item arr n) eqn:E; [|reflexivity].
    rewrite <- Hn. symmetry. apply (leb_trans _ (item arr k)); auto.
Qed.

Lemma argmin_loop_post rest :
  forall pre mi,
    first_min (pre ++ rest) (length pre) mi ->
    argmin_post (pre ++ rest)
                (argmin_loop (item (pre ++ rest) mi) mi (length pre) rest).
Proof.
  induction rest as [|x rest IH]; intros pre mi Hinv.
  - right. rewrite app_nil_r in *. exact Hinv.
  - cbn [argmin_loop].
    assert (Hx : item (pre ++ x :: rest) (length pre) = x) by apply item_app_r.
    assert (Hcons : pre ++ x :: rest = (pre ++ [x]) ++ rest)
      by (rewrite <- app_assoc; reflexivity).
    assert (Hlen : length (pre ++ [x]) = S (length pre))
      by (rewrite length_app; cbn; lia).
    destruct (item (pre ++ x :: rest) mi <=? x) eqn:Hle; cbn [negb].
    + specialize (IH (pre ++ [x]) mi). rewrite Hlen, <- Hcons in IH.
      apply IH. apply first_min_keep; [assumption|]. now rewrite Hx.
    + destruct (is_nan x) eqn:Hnan.
      * left. repeat split.
        -- rewrite length_app. cbn. lia.
        -- now rewrite Hx.
        -- intros k Hk. eapply first_min_not_nan; eauto.
      * specialize (IH (pre ++ [x]) (length pre)).
        rewrite Hlen, <- Hcons, Hx in IH.
        apply IH. apply (first_min_update _ _ mi); [assumption| |]; now rewrite Hx.
Qed.

Lemma argmin_spec arr :
  arr <> [] -> exists idx, argmin arr = OK idx /\ argmin_post arr idx.
Proof.
  destruct arr as [|x rest]; [congruence|]. intros _. cbn [argmin].
  destruct (is_nan x) eqn:Hnan.
  - exists 0%nat. split; [reflexivity|]. left. repeat split.
    + cbn. lia.
    + exact Hnan.
    + intros k Hk. lia.
  - eexists. split; [reflexivity|].
    apply (argmin_loop_post rest [x] 0%nat). repeat split.
    + cbn. lia.
    + intros k Hk. cbn in Hk. assert (k = 0)%nat as -> by lia.
      now apply leb_refl.
    + intros k Hk. lia.
Qed.

Lemma argmin_post_bound arr idx : argmin_post arr idx -> (idx < length arr)%nat.
Proof. intros [(H & _)|(H & _)]; exact H. Qed.

(** No entry is strictly below the selected one. *)
Lemma argmin_post_minimal arr idx k :
  argmin_post arr idx -> (item arr k <? item arr idx) = false.
Proof.
  intros [(_ & Hnan & _)|(Hm & Hle & _)].
  - now apply ltb_nan_r.
  - destruct (Nat.lt_ge_cases k (length arr)) as [Hk|Hk].
    + apply leb_ltb_false. now apply Hle.
    + unfold item at 1. rewrite nth_overflow by assumption.
      destruct (nan <? item arr idx) eqn:E; [|reflexivity].
      apply ltb_leb, leb_not_nan in E. destruct E as [E _]. discriminate.
Qed.

(** No earlier entry is as low as the selected one. *)
Lemma argmin_post_first arr idx k :
  argmin_post arr idx -> (k < idx)%nat -> (item arr k <=? item arr idx) = false.
Proof.
  intros [(_ & Hnan & _)|(_ & _ & Hlt)] Hk.
  - now apply leb_nan_r.
  - now apply Hlt.
Qed.

Lemma argmin_post_nan arr idx k :
  argmin_post arr idx -> (k < length arr)%nat -> is_nan (item arr k) = true ->
  first_nan arr idx.
Proof.
  intros [H|H] Hk Hnan; [assumption|].
  rewrite (first_min_not_nan _ _ _ _ H Hk) in Hnan. discriminate.
Qed.

Lemma argmin_post_no_nan arr idx :
  argmin_post arr idx ->
  (forall k, (k < length arr)%nat -> is_nan (item arr k) = false) ->
  first_min arr (length arr) idx.
Proof.
  intros [(Hk & Hnan & _)|H] Hall; [|assumption].
  rewrite (Hall _ Hk) in Hnan. discriminate.
Qed.

Lemma first_nan_unique arr i j : first_nan arr i -> first_nan arr j -> i = j.
Proof.
  intros (_ & Hi & Hbi) (_ & Hj & Hbj).
  destruct (Nat.lt_trichotomy i j) as [H|[H|H]]; [|assumption|].
  - rewrite (Hbj _ H) in Hi. discriminate.
  - rewrite (Hbi _ H) in Hj. discriminate.
Qed.

End Argmin.

(** * The search grid *)

Section Grid.

Lemma item_In g k : (k < length g)%nat -> In (item g k) g.
Proof. intros H. now apply nth_In. Qed.

Lemma In_item g x : In x g -> exists k, (k < length g)%nat /\ item g k = x.
Proof. intros H. destruct (In_nth g x nan H) as (k & Hk & E). now exists k. Qed.

Lemma item_map (h : float -> float) g k :
  (k < length g)%nat -> item (map h g) k = h (item g k).
Proof.
  intros H. unfold item.
  rewrite (nth_indep _ nan (h nan)) by now rewrite length_map.
  apply map_nth.
Qed.

Lemma getitem_item (g : list float) k :
  (k < length g)%nat -> getitem g k = OK (item g k).
Proof.
  intros H. unfold getitem, item. now rewrite (nth_error_nth' g nan H).
Qed.

Lemma forallb_item (P : float -> bool) g :
  forallb P g = true -> forall k, (k < length g)%nat -> P (item g k) = true.
Proof.
  intros H k Hk. rewrite forallb_forall in H. now apply H, item_In.
Qed.

Lemma forallb_firstn_item (P : float -> bool) g k :
  forallb P (firstn k g) = true ->
  forall j, (j < k)%nat -> (j < length g)%nat -> P (item g j) = true.
Proof.
  intros H j Hjk Hj.
  assert (E : item g j = item (firstn k g) j).
  { unfold item. rewrite nth_firstn.
    destruct (Nat.ltb_spec j k); [reflexivity|lia]. }
  rewrite E. apply forallb_item; [exact H|].
  rewrite length_firstn. lia.
Qed.

Lemma ascending_item g :
  ascending g = true ->
  forall k, (S k < length g)%nat -> (item g k <? item g (S k)) = true.
Proof.
  induction g as [|x [|y g] IH]; intros H k Hk; cbn in Hk; try lia.
  cbn [ascending] in H. apply andb_prop in H. destruct H as [Hxy Hrest].
  destruct k as [|k]; [exact Hxy|].
  apply (IH Hrest k). cbn. lia.
Qed.

Lemma gaps_item g k :
  (S k < length g)%nat -> item (gaps g) k = item g (S k) - item g k.
Proof.
  revert k. induction g as [|x [|y g] IH]; intros k Hk; cbn in Hk; try lia.
  destruct k as [|k]; [reflexivity|].
  change (gaps (x :: y :: g)) with ((y - x) :: gaps (y :: g)).
  change (item ((y - x) :: gaps (y :: g)) (S k)) with (item (gaps (y :: g)) k).
  rewrite IH by (cbn; lia). reflexivity.
Qed.

Lemma gaps_length g : length (gaps g) = Nat.pred (length g).
Proof.
  unfold gaps. rewrite length_map, length_combine.
  destruct g as [|x g]; [reflexivity|]. cbn [tl length Nat.pred]. lia.
Qed.

Lemma nth_map_seq (h : nat -> float) n k :
  (k < n)%nat -> nth k (map h (seq 0 n)) nan = h k.
Proof.
  intros Hk.
  rewrite (nth_indep _ nan (h 0%nat)) by (rewrite length_map, length_seq; exact Hk).
  rewrite map_nth, seq_nth by exact Hk. reflexivity.
Qed.

Lemma T_range_length : length T_range = 1000%nat.
Proof. vm_compute. reflexivity. Qed.

Lemma T_range_samples :
  T_range = map (fun k => float_of_nat k * paso + 200) (seq 0 999) ++ [700].
Proof. vm_compute. reflexivity. Qed.

Lemma T_range_ascending : ascending T_range = true.
Proof. vm_compute. reflexivity. Qed.

Lemma T_range_bounds :
  forallb (fun T => (200 <=? T) && (T <=? 700)) T_range = true.
Proof. vm_compute. reflexivity. Qed.

Lemma T_range_gaps :
  forallb (fun d => abs (d - paso) <=? 0x1p-42) (gaps T_range) = true.
Proof. vm_compute. reflexivity. Qed.

Lemma T_range_evenly_spaced : evenly_spaced T_range 200 700 1000 0x1p-42.
Proof.
  unfold evenly_spaced. change ((700 - 200) / float_of_nat (1000 - 1)) with paso.
  cbv zeta. repeat apply conj.
  - exact T_range_length.
  - intros k Hk. rewrite T_range_samples. unfold item.
    rewrite app_nth1 by (rewrite length_map, length_seq; exact Hk).
    now rewrite nth_map_seq.
  - rewrite T_range_samples. unfold item.
    rewrite app_nth2 by (rewrite length_map, length_seq; cbn; lia).
    rewrite length_map, length_seq. reflexivity.
  - intros k Hk. apply ascending_item; [exact T_range_ascending|].
    now rewrite T_range_length.
  - intros k Hk. apply andb_prop.
    apply (forallb_item _ _ T_range_bounds). now rewrite T_range_length.
  - intros k Hk. rewrite <- gaps_item by now rewrite T_range_length.
    apply (forallb_item _ _ T_range_gaps).
    rewrite gaps_length, T_range_length. cbn. lia.
Qed.

Lemma T_range_finite k : (k < 1000)%nat -> is_finite (item T_range k) = true.
Proof.
  intros Hk.
  destruct T_range_evenly_spaced as (_ & _ & _ & _ & Hb & _).
  destruct (Hb k Hk) as [Hlo Hhi].
  apply (IEEE.leb_leb_finite 200 700); auto.
Qed.

End Grid.

(** * The grid search of [calcular_ebullicion] *)

Section Search.

Import IEEE.

Variable np : numpy.
Variables P_objetivo a b c d e f : float.

Lemma ebullicion_argmin :
  calcular_ebullicion np P_objetivo a b c d e f =
  (idx <- argmin (map (diferencia np P_objetivo a b c d e f) T_range) ;;
   getitem T_range idx).
Proof.
  unfold calcular_ebullicion. rewrite !map_map. reflexivity.
Qed.

Lemma dif_item k :
  (k < 1000)%nat ->
  item (map (diferencia np P_objetivo a b c d e f) T_range) k =
  diferencia np P_objetivo a b c d e f (item T_range k).
Proof. intros Hk. apply item_map. now rewrite T_range_length. Qed.

(** The search returns the grid temperature at the index [argmin] selects
    in the array of absolute differences. *)
Lemma ebullicion_spec :
  exists idx,
    (idx < 1000)%nat /\
    calcular_ebullicion np P_objetivo a b c d e f = OK (item T_range idx) /\
    argmin_post (map (diferencia np P_objetivo a b c d e f) T_range) idx.
Proof.
  rewrite ebullicion_argmin.
  destruct (argmin_spec (map (diferencia np P_objetivo a b c d e f) T_range))
    as (idx & Harg & Hpost).
  - intros E. apply (f_equal (@length float)) in E.
    rewrite length_map, T_range_length in E. discriminate.
  - pose proof (argmin_post_bound _ _ Hpost) as Hidx.
    rewrite length_map, T_range_length in Hidx.
    exists idx. repeat apply conj; [exact Hidx| |exact Hpost].
    rewrite Harg. cbn [bind]. apply getitem_item. now rewrite T_range_length.
Qed.

End Search.

Section SearchProperties.

Import IEEE.

Variable np : numpy.
Variables P_objetivo a b c d e f : float.

Let dif : float -> float := diferencia np P_objetivo a b c d e f.

(** C2, as the code has it: [calcular_ebullicion] works on the ordered,
    evenly spaced sequence of 1000 temperatures from 200 to 700 and
    evaluates the vapour-pressure model at each of them; when none of the
    absolute differences from the target is a NaN, it returns the grid
    temperature whose computed pressure has the least absolute difference. *)
Theorem calcular_ebullicion_minimum :
  (forall k, (k < 1000)%nat -> is_nan (dif (item T_range k)) = false) ->
  evenly_spaced T_range 200 700 1000 0x1p-42 /\
  exists idx,
    (idx < 1000)%nat /\
    calcular_ebullicion np P_objetivo a b c d e f = OK (item T_range idx) /\
    forall k, (k < 1000)%nat ->
      (dif (item T_range idx) <=? dif (item T_range k)) = true.
Proof.
  intros Hnan. split; [exact T_range_evenly_spaced|].
  destruct (ebullicion_spec np P_objetivo a b c d e f) as (idx & Hidx & Hres & Hpost).
  exists idx. repeat apply conj; [exact Hidx|exact Hres|].
  intros k Hk.
  assert (Hmin : first_min (map (diferencia np P_objetivo a b c d e f) T_range)
                           1000 idx).
  { rewrite <- T_range_length at 1. rewrite <- (length_map (diferencia np P_objetivo a b c d e f)).
    apply argmin_post_no_nan; [exact Hpost|].
    intros j Hj. rewrite length_map, T_range_length in Hj.
    rewrite dif_item by assumption. now apply Hnan. }
  destruct Hmin as (_ & Hle & _).
  unfold dif. rewrite <- !dif_item by assumption. now apply Hle.
Qed.

(** C5: the temperature [calcular_ebullicion] returns is always one of the
    1000 evenly spaced samples of the grid from 200 to 700, never a value
    between two samples. *)
Theorem calcular_ebullicion_on_grid :
  evenly_spaced T_range 200 700 1000 0x1p-42 /\
  exists idx T,
    (idx < 1000)%nat /\
    T = item T_range idx /\
    calcular_ebullicion np P_objetivo a b c d e f = OK T /\
    In T T_range /\
    (200 <=? T) = true /\ (T <=? 700) = true.
Proof.
  split; [exact T_range_evenly_spaced|].
  destruct (ebullicion_spec np P_objetivo a b c d e f) as (idx & Hidx & Hres & _).
  exists idx, (item T_range idx).
  destruct T_range_evenly_spaced as (_ & _ & _ & _ & Hb & _).
  destruct (Hb idx Hidx) as [Hlo Hhi].
  repeat apply conj; auto.
  apply item_In. now rewrite T_range_length.
Qed.

(** C6: when some grid point attains the minimum absolute difference,
    [calcular_ebullicion] returns the temperature at the lowest index that
    attains it: no later tie is preferred and every earlier grid point is
    strictly worse. *)
Theorem calcular_ebullicion_first_minimum (j : nat) :
  (j < 1000)%nat ->
  (forall k, (k < 1000)%nat -> (dif (item T_range j) <=? dif (item T_range k)) = true) ->
  exists idx,
    (idx <= j)%nat /\
    calcular_ebullicion np P_objetivo a b c d e f = OK (item T_range idx) /\
    (dif (item T_range idx) =? dif (item T_range j)) = true /\
    (forall k, (k < 1000)%nat -> (dif (item T_range idx) <=? dif (item T_range k)) = true) /\
    (forall k, (k < idx)%nat -> (dif (item T_range k) <=? dif (item T_range idx)) = false).
Proof.
  intros Hj Hmin.
  destruct (ebullicion_spec np P_objetivo a b c d e f) as (idx & Hidx & Hres & Hpost).
  assert (Hfirst : forall k, (k < idx)%nat ->
                     (dif (item T_range k) <=? dif (item T_range idx)) = false).
  { intros k Hk. unfold dif. rewrite <- !dif_item by lia.
    now apply argmin_post_first. }
  assert (Hle : (idx <= j)%nat).
  { destruct (Nat.le_gt_cases idx j) as [H|H]; [exact H|].
    specialize (Hfirst j H). rewrite (Hmin idx Hidx) in Hfirst. discriminate. }
  assert (Hji : (dif (item T_range idx) <=? dif (item T_range j)) = true).
  { apply ltb_false_leb.
    - exact (proj1 (leb_not_nan _ _ (Hmin idx Hidx))).
    - exact (proj2 (leb_not_nan _ _ (Hmin idx Hidx))).
    - unfold dif. rewrite <- !dif_item by assumption.
      now apply argmin_post_minimal. }
  exists idx. repeat apply conj; auto.
  - apply leb_antisym; auto.
  - intros k Hk. apply (leb_trans _ (dif (item T_range j))); auto.
Qed.

(** C10, as the code has it: for a finite target pressure, if the computed pressure
    is a NaN at some grid point, [calcular_ebullicion] returns the
    temperature of the first such grid point, whatever the finite pressures
    elsewhere on the grid; it raises nothing. *)
Theorem calcular_ebullicion_first_nan (k : nat) :
  is_finite P_objetivo = true ->
  (k < 1000)%nat ->
  is_nan (calcular_presion_vapor np (item T_range k) a b c d e f) = true ->
  (forall j, (j < k)%nat ->
     is_nan (calcular_presion_vapor np (item T_range j) a b c d e f) = false) ->
  calcular_ebullicion np P_objetivo a b c d e f = OK (item T_range k).
Proof.
  intros Hfin Hk Hnan Hbefore.
  destruct (ebullicion_spec np P_objetivo a b c d e f) as (idx & Hidx & Hres & Hpost).
  assert (Hdif : forall j, (j < 1000)%nat ->
            is_nan (item (map (diferencia np P_objetivo a b c d e f) T_range) j) =
            is_nan (calcular_presion_vapor np (item T_range j) a b c d e f)).
  { intros j Hj. rewrite dif_item by assumption. unfold diferencia.
    now apply abs_sub_nan. }
  assert (Hfk : first_nan (map (diferencia np P_objetivo a b c d e f) T_range) k).
  { repeat apply conj.
    - now rewrite length_map, T_range_length.
    - now rewrite Hdif.
    - intros j Hj. rewrite Hdif by lia. now apply Hbefore. }
  assert (Hfi : first_nan (map (diferencia np P_objetivo a b c d e f) T_range) idx).
  { apply (argmin_post_nan _ _ k); [exact Hpost| |apply Hfk].
    now rewrite length_map, T_range_length. }
  rewrite <- (first_nan_unique _ _ _ Hfi Hfk). exact Hres.
Qed.

End SearchProperties.

(** * The reference instance satisfies the special-value laws *)

Section RefLaws.

Import IEEE.

Lemma is_nan_not_finite x : is_nan x = true -> is_finite x = false.
Proof. intros H. unfold is_finite. now rewrite H. Qed.

Lemma Ref_exp_nan x : is_nan x = true -> is_nan (Ref.exp x) = true.
Proof. intros H. unfold Ref.exp. rewrite H. reflexivity. Qed.

Lemma Ref_exp_overflow x : (710 <=? x) = true -> Ref.exp x = infinity.
Proof.
  intros H. unfold Ref.exp.
  rewrite (proj2 (leb_not_nan _ _ H)), H. reflexivity.
Qed.

Lemma Ref_exp_underflow x : (x <=? -746) = true -> Ref.exp x = 0.
Proof.
  intros H. unfold Ref.exp.
  rewrite (proj1 (leb_not_nan _ _ H)), H.
  destruct (710 <=? x) eqn:E; [|reflexivity].
  pose proof (leb_trans _ _ _ E H) as F. vm_compute in F. discriminate.
Qed.

Lemma Ref_log_nan x : is_nan x = true -> is_nan (Ref.log x) = true.
Proof. intros H. unfold Ref.log. rewrite H. reflexivity. Qed.

Lemma Ref_log_negative x : (x <? 0) = true -> is_nan (Ref.log x) = true.
Proof.
  intros H. unfold Ref.log.
  rewrite (proj1 (leb_not_nan _ _ (ltb_leb _ _ H))), H. reflexivity.
Qed.

Lemma Ref_log_zero x : (x =? 0) = true -> Ref.log x = neg_infinity.
Proof.
  intros H. unfold Ref.log.
  assert (Hn : is_nan x = false) by (clear -H; to_keys).
  assert (Hl : (x <? 0) = false) by (clear -H; to_keys).
  rewrite Hn, Hl, H. reflexivity.
Qed.

Lemma Ref_power_zero x y : (y =? 0) = true -> Ref.power x y = 1.
Proof. intros H. unfold Ref.power. rewrite H. reflexivity. Qed.

Lemma Ref_ieee_special : ieee_special Ref.np.
Proof.
  constructor; cbn [np_exp np_log np_power Ref.np].
  - exact Ref_exp_nan.
  - exact Ref_exp_overflow.
  - exact Ref_exp_underflow.
  - exact Ref_log_nan.
  - exact Ref_log_negative.
  - exact Ref_log_zero.
  - vm_compute. reflexivity.
  - vm_compute. reflexivity.
  - exact Ref_power_zero.
Qed.

End RefLaws.

(** * The vapour-pressure model *)

Section Presion.

Import IEEE.

Variable np : numpy.
Hypothesis laws : ieee_special np.

(** A non-finite exponent gives a NaN, [+inf] or zero pressure. *)
Lemma exp_nonfinite x :
  is_finite x = false ->
  is_nan (np_exp np x) = true \/ np_exp np x = infinity \/ np_exp np x = 0.
Proof.
  intros H. destruct (nonfinite_cases x H) as [Hn|[->| ->]].
  - left. now apply (exp_nan np laws).
  - right; left. now apply (exp_overflow np laws).
  - right; right. now apply (exp_underflow np laws).
Qed.

Lemma log_nonpositive T : (T <=? 0) = true -> is_finite (np_log np T) = false.
Proof.
  intros H. destruct (leb_cases _ _ H) as [Hlt|Heq].
  - apply is_nan_not_finite. now apply (log_negative np laws).
  - rewrite (log_zero np laws) by assumption. reflexivity.
Qed.

(** At the pole of the Antoine term the pressure is [exp(-inf)], a zero. *)
Lemma presion_polo : calcular_presion_vapor np 1 0 (-1) (-1) 0 0 0 = 0.
Proof.
  unfold calcular_presion_vapor.
  rewrite (log_one np laws), (power_zero np laws) by reflexivity.
  apply (exp_underflow np laws). vm_compute. reflexivity.
Qed.

(** So it is at [T = 0] when the logarithmic term has a positive weight. *)
Lemma presion_cero : calcular_presion_vapor np 0 0 0 1 1 0 0 = 0.
Proof.
  unfold calcular_presion_vapor.
  rewrite (log_zero np laws), (power_zero np laws) by reflexivity.
  apply (exp_underflow np laws). vm_compute. reflexivity.
Qed.

(** An exponent of 1000 overflows. *)
Lemma presion_desborda :
  calcular_presion_vapor np 1 1000 0 0 0 0 0 = infinity /\
  np_log np (calcular_presion_vapor np 1 1000 0 0 0 0 0) = infinity.
Proof.
  assert (E : calcular_presion_vapor np 1 1000 0 0 0 0 0 = infinity).
  { unfold calcular_presion_vapor.
    rewrite (log_one np laws), (power_zero np laws) by reflexivity.
    apply (exp_overflow np laws). vm_compute. reflexivity. }
  rewrite E. split; [reflexivity|]. apply (log_infinity np laws).
Qed.

(** C7, as the code has it: when [T + c == 0] or [T <= 0], [calcular_presion_vapor]
    still returns a value (numpy warns, it does not raise); the exponent is
    not finite, and the pressure is a NaN, [+inf], or [0.0], the exponential
    of [-inf]; for [T < 0] it is a NaN. *)
Theorem calcular_presion_vapor_singular (T a b c d e f : float) :
  (T + c =? 0) = true \/ (T <=? 0) = true ->
  let lnP := a + b / (T + c) + d * np_log np T + e * np_power np T f in
  let P := calcular_presion_vapor np T a b c d e f in
  is_finite lnP = false /\
  (is_nan P = true \/ P = infinity \/ P = 0) /\
  ((T <? 0) = true -> is_nan P = true).
Proof.
  intros H lnP P.
  assert (Hln : is_finite lnP = false).
  { unfold lnP. apply add_nonfinite_l. destruct H as [H|H].
    - apply add_nonfinite_l, add_nonfinite_r. now apply div_zero_nonfinite.
    - apply add_nonfinite_r, mul_nonfinite_r. now apply log_nonpositive. }
  repeat apply conj.
  - exact Hln.
  - now apply exp_nonfinite.
  - intros Hneg. unfold P, calcular_presion_vapor.
    apply (exp_nan np laws), add_nan_l, add_nan_r, mul_nan_r.
    now apply (log_negative np laws).
Qed.

End Presion.

(** Against C7 as stated: at [T = 1] with [c = -1] (so [T + c == 0]) and
    [b = -1], and at [T = 0] with [d = 1], the returned pressure is the
    finite number 0. *)
Lemma calcular_presion_vapor_singular_finite :
  (1 + (-1) =? 0) = true /\
  is_finite (calcular_presion_vapor Ref.np 1 0 (-1) (-1) 0 0 0) = true /\
  (0 <=? 0) = true /\
  is_finite (calcular_presion_vapor Ref.np 0 0 0 1 1 0 0) = true.
Proof.
  rewrite (presion_polo Ref.np Ref_ieee_special).
  rewrite (presion_cero Ref.np Ref_ieee_special).
  vm_compute. auto.
Qed.

Lemma calcular_presion_vapor_singular_witness :
  ((1 + (-1) =? 0) = true /\
   (is_nan (calcular_presion_vapor Ref.np 1 0 (-1) (-1) 0 0 0) = true \/
    calcular_presion_vapor Ref.np 1 0 (-1) (-1) 0 0 0 = infinity \/
    calcular_presion_vapor Ref.np 1 0 (-1) (-1) 0 0 0 = 0)) /\
  ((-1 <? 0) = true /\
   is_nan (calcular_presion_vapor Ref.np (-1) 0 0 0 0 0 0) = true).
Proof.
  split; (split; [vm_compute; reflexivity|]).
  - apply (calcular_presion_vapor_singular Ref.np Ref_ieee_special 1 0 (-1) (-1) 0 0 0).
    left. vm_compute. reflexivity.
  - apply (calcular_presion_vapor_singular Ref.np Ref_ieee_special (-1) 0 0 0 0 0 0).
    + right. vm_compute. reflexivity.
    + vm_compute. reflexivity.
Defined.

(** * The logarithm of the returned pressure *)

Section RealRoundTrip.

Local Open Scope R_scope.

Lemma Rabs_bound a b : Rabs a <= b -> - b <= a <= b.
Proof.
  intros H. pose proof (Rle_abs a) as H1. pose proof (Rle_abs (- a)) as H2.
  rewrite Rabs_Ropp in H2. lra.
Qed.

Lemma ln_le_exp p y : 0 < p -> p <= exp y -> ln p <= y.
Proof.
  intros Hp [H|H].
  - left. rewrite <- (ln_exp y). now apply ln_increasing.
  - right. rewrite H. apply ln_exp.
Qed.

Lemma exp_le_ln p y : exp y <= p -> y <= ln p.
Proof.
  intros [H|H].
  - left. rewrite <- (ln_exp y) at 1. apply ln_increasing; [apply exp_pos|exact H].
  - right. rewrite <- H. symmetry. apply ln_exp.
Qed.

(** A relative perturbation [u <= 1/2] of [exp x] moves its logarithm by at
    most [2 * u]. *)
Lemma ln_perturbed x p u :
  0 <= u <= 1 / 2 -> Rabs (p - exp x) <= u * exp x ->
  0 < p /\ Rabs (ln p - x) <= 2 * u.
Proof.
  intros Hu Hp.
  pose proof (exp_pos x) as Hx.
  apply Rabs_bound in Hp.
  assert (Hpos : 0 < p) by nra.
  split; [exact Hpos|].
  apply Rabs_le. split.
  - assert (H : x - 2 * u <= ln p); [|lra].
    apply exp_le_ln.
    replace (x - 2 * u) with (x + - (2 * u)) by ring.
    rewrite exp_plus, exp_Ropp.
    pose proof (exp_ineq1_le (2 * u)) as H1.
    pose proof (exp_pos (2 * u)) as H2.
    apply Rle_trans with (exp x * (1 - u)); [|lra].
    apply Rmult_le_compat_l; [lra|].
    apply Rle_trans with (/ (1 + 2 * u)).
    + apply Rinv_le_contravar; lra.
    + apply (Rmult_le_reg_l (1 + 2 * u)); [lra|].
      rewrite Rinv_r by lra. nra.
  - assert (H : ln p <= x + u); [|lra].
    apply ln_le_exp; [exact Hpos|].
    rewrite exp_plus.
    pose proof (exp_ineq1_le u) as H1.
    apply Rle_trans with (exp x * (1 + u)); [lra|].
    apply Rmult_le_compat_l; lra.
Qed.

Lemma powerRZ_2_neg p : powerRZ 2 (Zneg p) = / IZR (Z.pow_pos 2 p).
Proof.
  cbn [powerRZ]. f_equal. change 2 with (IZR 2).
  rewrite pow_IZR, positive_nat_Z. reflexivity.
Qed.

Lemma real_of_finite (x : float) sg m e :
  Prim2SF x = S754_finite sg m e ->
  real_of x = Some ((if sg then -1 else 1) * IZR (Zpos m) * powerRZ 2 e).
Proof. intros E. unfold real_of. now rewrite E. Qed.

Variable np : numpy.

(** C1, as the code has it: let [x] be the number the binary64 exponent
    [lnP = a + b/(T+c) + d*log(T) + e*T**f] stands for.  When [np.exp] is
    accurate at [lnP] within the relative error [u1] and [np.log] at the
    returned pressure within [u2], the logarithm of the returned pressure
    differs from [x] by at most [2*u1*(1+u2) + u2*|x|]; it equals [x]
    within the relative tolerance [1e-9] as soon as that bound is below
    [1e-9 * |x|] (for [u1 = u2 = 2^-52], from [|x| >= 4.5e-7] on). *)
Theorem calcular_presion_vapor_round_trip (T a b c d e f : float) (u1 u2 x : R) :
  let lnP := (a + b / (T + c) + d * np_log np T + e * np_power np T f)%float in
  let P := calcular_presion_vapor np T a b c d e f in
  real_of lnP = Some x ->
  0 <= u1 <= 1 / 2 -> 0 <= u2 ->
  exp_within np u1 lnP ->
  log_within np u2 P ->
  2 * u1 * (1 + u2) + u2 * Rabs x <= 1e-9 * Rabs x ->
  exists l,
    real_of (np_log np P) = Some l /\
    Rabs (l - x) <= 1e-9 * Rabs x.
Proof.
  intros lnP P Hx Hu1 Hu2 (rx & p & Erx & Ep & Hexp) (ry & l & Ery & El & Hry & Hlog)
    Htol.
  fold lnP in Erx. rewrite Hx in Erx. injection Erx as <-.
  change (np_exp np lnP) with P in Ep. rewrite Ery in Ep. injection Ep as <-.
  destruct (ln_perturbed x ry u1 Hu1 Hexp) as [_ Hln].
  exists l. split; [exact El|].
  apply Rle_trans with (2 * u1 * (1 + u2) + u2 * Rabs x); [|exact Htol].
  replace (l - x) with ((l - ln ry) + (ln ry - x)) by ring.
  eapply Rle_trans; [apply Rabs_triang|].
  assert (H1 : Rabs (ln ry) <= Rabs x + 2 * u1).
  { replace (ln ry) with (x + (ln ry - x)) by ring.
    eapply Rle_trans; [apply Rabs_triang|]. lra. }
  assert (H2 : u2 * Rabs (ln ry) <= u2 * (Rabs x + 2 * u1))
    by (apply Rmult_le_compat_l; lra).
  lra.
Qed.

End RealRoundTrip.

Ltac real_value sg m e :=
  rewrite (real_of_finite _ sg m e) by (vm_compute; reflexivity);
  f_equal; rewrite powerRZ_2_neg;
  match goal with
  | |- context [Z.pow_pos 2 ?p] =>
      let v := eval vm_compute in (Z.pow_pos 2 p) in change (Z.pow_pos 2 p) with v
  end;
  lra.

(** ** Bounds of the exponential by repeated squaring *)

Section ExpBounds.

Local Open Scope R_scope.

Let s : R := IZR (2 ^ 100).

Lemma s_pos : 0 < s.
Proof. unfold s. apply IZR_lt. reflexivity. Qed.

Lemma exp_small y : 0 <= y < 1 -> 1 + y <= exp y <= / (1 - y).
Proof.
  intros Hy. split; [apply exp_ineq1_le|].
  pose proof (exp_ineq1_le (- y)) as H. rewrite exp_Ropp in H.
  pose proof (exp_pos y) as Hp.
  rewrite <- (Rinv_inv (exp y)).
  apply Rinv_le_contravar; lra.
Qed.

Lemma square_sound c d y :
  (0 <= c)%Z -> IZR c / s <= exp y <= IZR d / s ->
  (0 <= square_down c)%Z /\
  IZR (square_down c) / s <= exp (2 * y) <= IZR (square_up d) / s.
Proof.
  intros Hc [Hlo Hhi]. pose proof s_pos as Hs. pose proof (exp_pos y) as He.
  replace (2 * y) with (y + y) by ring. rewrite exp_plus.
  assert (Hdown : IZR (square_down c) * s <= IZR c * IZR c).
  { unfold s, square_down. rewrite <- !mult_IZR. apply IZR_le.
    rewrite Z.mul_comm. apply Z.mul_div_le. reflexivity. }
  assert (Hup : IZR d * IZR d <= IZR (square_up d) * s).
  { unfold s, square_up. rewrite <- !mult_IZR. apply IZR_le.
    pose proof (Z.div_mod (d * d + (2 ^ 100 - 1)) (2 ^ 100) ltac:(discriminate)) as E.
    pose proof (Z.mod_pos_bound (d * d + (2 ^ 100 - 1)) (2 ^ 100) ltac:(reflexivity)) as B.
    lia. }
  assert (Hc0 : 0 <= IZR c) by (apply IZR_le; exact Hc).
  assert (Ec : IZR c = IZR c / s * s) by (field; lra).
  assert (Ed : IZR d = IZR d / s * s) by (field; lra).
  assert (E1 : IZR (square_down c) = IZR (square_down c) / s * s) by (field; lra).
  assert (E2 : IZR (square_up d) = IZR (square_up d) / s * s) by (field; lra).
  set (a := IZR c / s) in *. set (b := IZR d / s) in *.
  set (a' := IZR (square_down c) / s) in *. set (b' := IZR (square_up d) / s) in *.
  assert (Ha : 0 <= a).
  { unfold a. apply Rmult_le_pos; [exact Hc0|]. left. now apply Rinv_0_lt_compat. }
  rewrite Ec, E1 in Hdown. rewrite Ed, E2 in Hup.
  split; [|split].
  - unfold square_down. apply Z.div_pos; [nia|reflexivity].
  - assert (a' <= a * a).
    { apply (Rmult_le_reg_r (s * s)); [nra|]. nra. }
    nra.
  - assert (b * b <= b').
    { apply (Rmult_le_reg_r (s * s)); [nra|]. nra. }
    nra.
Qed.

Lemma iter_square_sound n c d y :
  (0 <= c)%Z -> IZR c / s <= exp y <= IZR d / s ->
  (0 <= Nat.iter n square_down c)%Z /\
  IZR (Nat.iter n square_down c) / s <= exp (2 ^ n * y)
    <= IZR (Nat.iter n square_up d) / s.
Proof.
  intros Hc H. induction n as [|n [IH0 IH]].
  - cbn [Nat.iter pow]. rewrite Rmult_1_l. now split.
  - cbn [Nat.iter pow]. rewrite Rmult_assoc. now apply square_sound.
Qed.

End ExpBounds.

Section AguaBounds.
Local Open Scope R_scope.

(** [exp 4.618...] for the exponent at the boiling point of water, within
    [3e-13]. *)
Lemma exp_agua_bounds :
  128455107992001739252948551446655 / 1267650600228229401496703205376
  <= exp (5199872143409376 / 1125899906842624)
  <= 128455107992040687086628219678404 / 1267650600228229401496703205376.
Proof.
  pose proof (iter_square_sound 46 1267650600228312599450997755392%Z
                1267650600228312599450997760853%Z
                (83197954294550016 / 1267650600228229401496703205376)) as H.
  assert (El : Nat.iter 46 square_down 1267650600228312599450997755392%Z
               = 128455107992001739252948551446655%Z) by (vm_compute; reflexivity).
  assert (Eu : Nat.iter 46 square_up 1267650600228312599450997760853%Z
               = 128455107992040687086628219678404%Z) by (vm_compute; reflexivity).
  rewrite El, Eu in H.
  replace (2 ^ 46 * (83197954294550016 / 1267650600228229401496703205376))
    with (5199872143409376 / 1125899906842624) in H by lra.
  apply H; [lia|].
  pose proof (exp_small (83197954294550016 / 1267650600228229401496703205376)
                ltac:(lra)) as [Hlo Hhi].
  change (IZR (2 ^ 100)) with 1267650600228229401496703205376.
  split; [lra|].
  eapply Rle_trans; [exact Hhi|].
  apply (Rmult_le_reg_r (1 - 83197954294550016 / 1267650600228229401496703205376));
    [lra|].
  rewrite Rinv_l by lra. lra.
Qed.

End AguaBounds.

Section RoundTripAgua.

Local Open Scope R_scope.

(** At [T = 373.15] with the coefficients [16.3872], [-3885.70], [-42.98]
    (and [d = e = f = 0]) the exponent is [4.618...], the reference
    exponential returns [101.333...] and the reference logarithm gives the
    exponent back: both within [1e-12]. *)
Lemma calcular_presion_vapor_round_trip_witness :
  exists l,
    real_of (np_log Ref.np
               (calcular_presion_vapor Ref.np 373.15 16.3872 (-3885.70) (-42.98) 0 0 0))
    = Some l /\
    Rabs (l - 5199872143409376 / 1125899906842624)
    <= 1e-9 * Rabs (5199872143409376 / 1125899906842624).
Proof.
  assert (Hx : real_of (16.3872 + -3885.70 / (373.15 + -42.98)
                        + 0 * np_log Ref.np 373.15
                        + 0 * np_power Ref.np 373.15 0)%float
               = Some (5199872143409376 / 1125899906842624))
    by real_value false 5199872143409376%positive (-50)%Z.
  assert (Hp : real_of (calcular_presion_vapor Ref.np 373.15 16.3872 (-3885.70)
                                               (-42.98) 0 0 0)
               = Some (7130690926172646 / 70368744177664))
    by real_value false 7130690926172646%positive (-46)%Z.
  assert (Hl : real_of (np_log Ref.np
                          (calcular_presion_vapor Ref.np 373.15 16.3872 (-3885.70)
                                                  (-42.98) 0 0 0))
               = Some (5199872143409376 / 1125899906842624))
    by real_value false 5199872143409376%positive (-50)%Z.
  pose proof exp_agua_bounds as [HL HU].
  set (X := 5199872143409376 / 1125899906842624) in *.
  assert (Hln : Rabs (X - ln (7130690926172646 / 70368744177664)) <= 1e-12).
  { pose proof (exp_ineq1_le 1e-12) as He.
    pose proof (exp_pos X) as HX. pose proof (exp_pos 1e-12) as He0.
    apply Rabs_le. split.
    - assert (H : ln (7130690926172646 / 70368744177664) <= X + 1e-12); [|lra].
      apply ln_le_exp; [lra|]. rewrite exp_plus.
      apply Rle_trans with
        (128455107992001739252948551446655 / 1267650600228229401496703205376
         * (1 + 1e-12)); [lra|].
      apply Rmult_le_compat; lra.
    - assert (H : X - 1e-12 <= ln (7130690926172646 / 70368744177664)); [|lra].
      apply exp_le_ln.
      unfold Rminus.
      rewrite exp_plus, exp_Ropp.
      apply Rle_trans with
        (128455107992040687086628219678404 / 1267650600228229401496703205376
         * / (1 + 1e-12)).
      + apply Rmult_le_compat; try lra.
        * left. now apply Rinv_0_lt_compat.
        * apply Rinv_le_contravar; lra.
      + apply (Rmult_le_reg_r (1 + 1e-12)); [lra|].
        rewrite Rmult_assoc, Rinv_l by lra. lra. }
  apply Rabs_bound in Hln.
  apply (calcular_presion_vapor_round_trip Ref.np 373.15 16.3872 (-3885.70) (-42.98)
           0 0 0 1e-12 1e-12 X).
  - exact Hx.
  - lra.
  - lra.
  - exists X, (7130690926172646 / 70368744177664).
    repeat apply conj; [exact Hx|exact Hp|].
    apply Rabs_le. lra.
  - exists (7130690926172646 / 70368744177664), X.
    repeat apply conj; [exact Hp|exact Hl|lra|].
    assert (HXv : 4 <= X) by (unfold X; lra).
    rewrite (Rabs_pos_eq (ln _)) by lra.
    apply Rabs_le. lra.
  - assert (HXv : 4 <= X) by (unfold X; lra).
    rewrite Rabs_pos_eq by lra. lra.
Defined.

End RoundTripAgua.

(** Against C1 as stated, at [T = 1 > 0] with [T + c = 1] and
    [b = c = d = e = f = 0].  With [a = 1000] the pressure is [+inf] and so
    is its logarithm, not within [1e-9] of the exponent 1000; with
    [a = -1000] the pressure is 0 and its logarithm [-inf]; with
    [a = 2^-70] the pressure is 1 and its logarithm 0, which misses the
    exponent by the whole of it. *)
Lemma calcular_presion_vapor_log_lost :
  (0 <? 1) = true /\ (1 + 0 =? 0) = false /\
  (let lnP := 1000 + 0 / (1 + 0) + 0 * np_log Ref.np 1 + 0 * np_power Ref.np 1 0 in
   let P := calcular_presion_vapor Ref.np 1 1000 0 0 0 0 0 in
   lnP = 1000 /\ P = infinity /\ np_log Ref.np P = infinity /\
   within_rel_tol (np_log Ref.np P) lnP 1e-9 = false) /\
  (let lnP := -1000 + 0 / (1 + 0) + 0 * np_log Ref.np 1 + 0 * np_power Ref.np 1 0 in
   let P := calcular_presion_vapor Ref.np 1 (-1000) 0 0 0 0 0 in
   lnP = -1000 /\ P = 0 /\ np_log Ref.np P = neg_infinity /\
   within_rel_tol (np_log Ref.np P) lnP 1e-9 = false) /\
  (let lnP := 0x1p-70 + 0 / (1 + 0) + 0 * np_log Ref.np 1 + 0 * np_power Ref.np 1 0 in
   let P := calcular_presion_vapor Ref.np 1 0x1p-70 0 0 0 0 0 in
   lnP = 0x1p-70 /\ P = 1 /\ np_log Ref.np P = 0 /\
   within_rel_tol (np_log Ref.np P) lnP 1e-9 = false).
Proof. vm_compute. auto 20. Qed.

(** * The pair analysis of the dashboard *)

Section Lookup.

Variable np : numpy.
Variable df : DataFrame.

Lemma seleccionar_absent nombre :
  ~ In nombre (map Component df) -> seleccionar df nombre = [].
Proof.
  intros H. unfold seleccionar.
  destruct (filter (fun r => (Component r =? nombre)%string) df) as [|r rs] eqn:E;
    [reflexivity|].
  exfalso. apply H.
  assert (Hr : In r (filter (fun r => (Component r =? nombre)%string) df))
    by (rewrite E; now left).
  apply filter_In in Hr. destruct Hr as [Hin Heq].
  apply String.eqb_eq in Heq. subst nombre. now apply in_map.
Qed.

Lemma seleccionar_present nombre r rs :
  seleccionar df nombre = r :: rs -> In nombre (map Component df).
Proof.
  intros E.
  assert (Hr : In r (seleccionar df nombre)) by (rewrite E; now left).
  apply filter_In in Hr. destruct Hr as [Hin Heq].
  apply String.eqb_eq in Heq. subst nombre. now apply in_map.
Qed.

(** C8: when the selected pair [nombre1|nombre2] names a component that
    is not in the coefficient table, [actualizar_graficos] fails with an
    [IndexError], which is a [LookupError]; no figure data is returned. *)
Theorem actualizar_graficos_lookup_error
    (Tmin Tmax Ptarget : float) (componentes_seleccionados : list string)
    (par_componentes nombre1 nombre2 : string) :
  split "|"%char par_componentes = [nombre1; nombre2] ->
  ~ In nombre1 (map Component df) \/ ~ In nombre2 (map Component df) ->
  actualizar_graficos np df Tmin Tmax Ptarget componentes_seleccionados
                      par_componentes = Raise IndexError /\
  LookupError IndexError = true.
Proof.
  intros Hsplit Habsent. split; [|reflexivity].
  unfold actualizar_graficos. rewrite Hsplit. cbv zeta.
  destruct (seleccionar df nombre1) as [|r1 rs1] eqn:E1; [reflexivity|].
  cbn [iloc0 bind].
  destruct Habsent as [H|H].
  - exfalso. apply H. eapply seleccionar_present; eassumption.
  - rewrite (seleccionar_absent _ H). reflexivity.
Qed.

End Lookup.

Lemma actualizar_graficos_lookup_error_witness :
  actualizar_graficos Ref.np tabla_ejemplo 250 550 101.325 ["agua"%string]
                      "agua|etanol" = Raise IndexError /\
  LookupError IndexError = true.
Proof.
  apply (actualizar_graficos_lookup_error Ref.np tabla_ejemplo 250 550 101.325
           ["agua"%string] "agua|etanol" "agua" "etanol").
  - reflexivity.
  - right. cbn. intros [H|[]]. discriminate H.
Defined.

(** * Concrete searches *)

Section Examples.

Import IEEE.

Lemma T_range_first : item T_range 0 = 200.
Proof. vm_compute. reflexivity. Qed.

Lemma forallb_In (P : float -> bool) g :
  forallb P g = true -> forall T, In T g -> P T = true.
Proof. intros H. now apply forallb_forall. Qed.

(** When the first grid point is at least as close to the target as every
    other one, the search returns it. *)
Lemma ebullicion_at_first np P_objetivo a b c d e f :
  (forall k, (k < 1000)%nat ->
     (diferencia np P_objetivo a b c d e f (item T_range 0) <=?
      diferencia np P_objetivo a b c d e f (item T_range k)) = true) ->
  calcular_ebullicion np P_objetivo a b c d e f = OK 200.
Proof.
  intros H.
  destruct (ebullicion_spec np P_objetivo a b c d e f) as (idx & Hidx & Hres & Hpost).
  destruct idx as [|idx]; [now rewrite Hres, T_range_first|].
  pose proof (argmin_post_first _ _ 0%nat Hpost ltac:(lia)) as Hfirst.
  rewrite !dif_item in Hfirst by lia.
  rewrite (H _ Hidx) in Hfirst. discriminate.
Qed.

Lemma lnP_agua_regular :
  forallb (fun T => is_finite (lnP_agua T) && negb (lnP_agua T =? 0)) T_range = true.
Proof. vm_compute. reflexivity. Qed.

(** With [d = e = f = 0] the logarithmic and the power term add a zero. *)
Lemma diferencia_agua np (laws : ieee_special np) P_objetivo T :
  In T T_range -> is_finite (np_log np T) = true ->
  diferencia np P_objetivo 16.3872 (-3885.70) 230.170 0 0 0 T =
  abs (np_exp np (lnP_agua T) - P_objetivo).
Proof.
  intros HT Hlog. unfold diferencia, calcular_presion_vapor.
  rewrite (power_zero np laws) by reflexivity.
  pose proof (forallb_In _ _ lnP_agua_regular T HT) as Hreg.
  apply andb_prop in Hreg. destruct Hreg as [Hfin Hnz].
  apply negb_true_iff in Hnz.
  fold (lnP_agua T).
  rewrite (add_zero_r (lnP_agua T) (0 * np_log np T))
    by (auto using mul_zero_finite).
  rewrite (add_zero_r (lnP_agua T) (0 * 1)) by (auto; vm_compute; reflexivity).
  reflexivity.
Qed.

End Examples.

Section ExampleRuns.

Import IEEE.

(** C3, as the code has it: for [a = 16.3872], [b = -3885.70], [c = 230.170],
    [d = e = f = 0] and the target 101.325, [calcular_ebullicion] returns
    200, the lowest grid temperature, as soon as [np.log] is finite on the
    grid and no grid pressure is closer to the target than the pressure at
    200 (about 1563, and the pressure grows with the temperature). *)
Theorem calcular_ebullicion_agua (np : numpy) :
  ieee_special np ->
  (forall T, In T T_range -> is_finite (np_log np T) = true) ->
  (forall T, In T T_range ->
     (abs (np_exp np (lnP_agua 200) - 101.325) <=?
      abs (np_exp np (lnP_agua T) - 101.325)) = true) ->
  calcular_ebullicion np 101.325 16.3872 (-3885.70) 230.170 0 0 0 = OK 200.
Proof.
  intros laws Hlog Hmin. apply ebullicion_at_first. intros k Hk.
  assert (H0 : In (item T_range 0) T_range)
    by (apply item_In; rewrite T_range_length; lia).
  assert (Hin : In (item T_range k) T_range)
    by (apply item_In; now rewrite T_range_length).
  rewrite !diferencia_agua by auto.
  rewrite T_range_first. now apply Hmin.
Qed.

Lemma calcular_ebullicion_agua_witness :
  calcular_ebullicion Ref.np 101.325 16.3872 (-3885.70) 230.170 0 0 0 = OK 200.
Proof.
  apply (calcular_ebullicion_agua Ref.np Ref_ieee_special).
  - apply forallb_In. vm_compute. reflexivity.
  - apply (forallb_In
             (fun T => abs (np_exp Ref.np (lnP_agua 200) - 101.325) <=?
                       abs (np_exp Ref.np (lnP_agua T) - 101.325))).
    vm_compute. reflexivity.
Defined.

(** Against C3 as stated: the search does not return a temperature near
    373, it returns 200, which is 173 away. *)
Lemma calcular_ebullicion_agua_not_373 :
  exists T,
    calcular_ebullicion Ref.np 101.325 16.3872 (-3885.70) 230.170 0 0 0 = OK T /\
    (abs (T - 373) <=? 0.5) = false.
Proof. exists 200. split; vm_compute; reflexivity. Qed.



End ExampleRuns.

(** * The round trip through the search *)

Section RoundTripBetween.

Import IEEE.





(** Every temperature from 200 to 700 lies between two consecutive grid
    temperatures. *)
Lemma T_range_bracket T0 :
  (200 <=? T0) = true -> (T0 <=? 700) = true ->
  exists k, (S k < 1000)%nat /\
            (item T_range k <=? T0) = true /\ (T0 <=? item T_range (S k)) = true.
Proof.
  intros Hlo Hhi.
  assert (H : forall n, (S n < 1000)%nat -> (T0 <=? item T_range (S n)) = true ->
            exists k, (S k < 1000)%nat /\
                      (item T_range k <=? T0) = true /\
                      (T0 <=? item T_range (S k)) = true).
  { induction n as [|n IH]; intros Hn Hle.
    - exists 0%nat. rewrite T_range_first. auto.
    - destruct (item T_range (S n) <=? T0) eqn:E.
      + exists (S n). auto.
      + apply IH; [lia|]. apply ltb_leb. apply leb_false_ltb; [| |exact E].
        * apply finite_not_nan, T_range_finite. lia.
        * exact (proj1 (leb_not_nan _ _ Hle)). }
  apply (H 998%nat); [lia|].
  destruct T_range_evenly_spaced as (_ & _ & Hlast & _).
  change (1000 - 1)%nat with 999%nat in Hlast. now rewrite Hlast.
Qed.


Variable np : numpy.
Variables a b c d e f : float.

Let P (T : float) : float := calcular_presion_vapor np T a b c d e f.


End RoundTripBetween.

Section RoundTripExamples.



End RoundTripExamples.

Section SearchExamples.

Lemma calcular_ebullicion_minimum_witness :
  exists idx,
    (idx < 1000)%nat /\
    calcular_ebullicion Ref.np 101.325 16.3872 (-3885.70) (-42.98) 0 0 0 =
      OK (item T_range idx) /\
    forall k, (k < 1000)%nat ->
      (diferencia Ref.np 101.325 16.3872 (-3885.70) (-42.98) 0 0 0 (item T_range idx) <=?
       diferencia Ref.np 101.325 16.3872 (-3885.70) (-42.98) 0 0 0 (item T_range k)) = true.
Proof.
  apply (calcular_ebullicion_minimum Ref.np 101.325 16.3872 (-3885.70) (-42.98) 0 0 0).
  intros k Hk.
  apply negb_true_iff.
  apply (forallb_item
           (fun T => negb (is_nan (diferencia Ref.np 101.325 16.3872 (-3885.70)
                                              (-42.98) 0 0 0 T)))).
  - vm_compute. reflexivity.
  - now rewrite T_range_length.
Defined.

(** Against C2 as stated: with [b = 0] and [c = -700] the pressure is 1 on
    the grid except at 700, where it is a NaN.  For the target 101.325 the
    search returns 700, whose difference is a NaN and so not below or equal
    to the difference 100.325 of the grid point 200, nor of any other. *)
Lemma calcular_ebullicion_minimum_nan :
  calcular_ebullicion Ref.np 101.325 0 0 (-700) 0 0 0 = OK 700 /\
  is_nan (diferencia Ref.np 101.325 0 0 (-700) 0 0 0 700) = true /\
  diferencia Ref.np 101.325 0 0 (-700) 0 0 0 200 = 100.325 /\
  (diferencia Ref.np 101.325 0 0 (-700) 0 0 0 700 <=?
   diferencia Ref.np 101.325 0 0 (-700) 0 0 0 200) = false /\
  forallb (fun T => diferencia Ref.np 101.325 0 0 (-700) 0 0 0 200 <=?
                    diferencia Ref.np 101.325 0 0 (-700) 0 0 0 T)
          (firstn 999 T_range) = true.
Proof. vm_compute. auto 6. Qed.

Lemma calcular_ebullicion_first_minimum_witness :
  exists idx,
    (idx <= 7)%nat /\
    calcular_ebullicion Ref.np 1 0 0 0 0 0 0 = OK (item T_range idx) /\
    (diferencia Ref.np 1 0 0 0 0 0 0 (item T_range idx) =?
     diferencia Ref.np 1 0 0 0 0 0 0 (item T_range 7)) = true /\
    (forall k, (k < 1000)%nat ->
       (diferencia Ref.np 1 0 0 0 0 0 0 (item T_range idx) <=?
        diferencia Ref.np 1 0 0 0 0 0 0 (item T_range k)) = true) /\
    (forall k, (k < idx)%nat ->
       (diferencia Ref.np 1 0 0 0 0 0 0 (item T_range k) <=?
        diferencia Ref.np 1 0 0 0 0 0 0 (item T_range idx)) = false).
Proof.
  apply (calcular_ebullicion_first_minimum Ref.np 1 0 0 0 0 0 0 7).
  - lia.
  - intros k Hk.
    apply (forallb_item
             (fun T => diferencia Ref.np 1 0 0 0 0 0 0 (item T_range 7) <=?
                       diferencia Ref.np 1 0 0 0 0 0 0 T)).
    + vm_compute. reflexivity.
    + now rewrite T_range_length.
Defined.

(** With [b = 0] and [c = -700] the quotient [b / (T + c)] is [0/0] at the
    last grid point only; for the finite target 101.325 the search returns
    that point, 700, although the pressure is 1 everywhere else. *)
Lemma calcular_ebullicion_first_nan_witness :
  calcular_ebullicion Ref.np 101.325 0 0 (-700) 0 0 0 = OK (item T_range 999).
Proof.
  apply (calcular_ebullicion_first_nan Ref.np 101.325 0 0 (-700) 0 0 0 999).
  - vm_compute. reflexivity.
  - lia.
  - vm_compute. reflexivity.
  - intros j Hj.
    apply negb_true_iff.
    apply (forallb_firstn_item
             (fun T => negb (is_nan (calcular_presion_vapor Ref.np T 0 0 (-700) 0 0 0)))
             T_range 999).
    + vm_compute. reflexivity.
    + exact Hj.
    + rewrite T_range_length. lia.
Defined.

(** Against C10 as stated: for the target NaN and the same coefficients,
    the search returns 200,
    where the computed pressure is not a NaN; the only grid point with a NaN
    pressure is the last one, 700. *)
Lemma calcular_ebullicion_nan_target :
  calcular_ebullicion Ref.np nan 0 0 (-700) 0 0 0 = OK 200 /\
  is_nan (calcular_presion_vapor Ref.np 200 0 0 (-700) 0 0 0) = false /\
  item T_range 999 = 700 /\
  is_nan (calcular_presion_vapor Ref.np 700 0 0 (-700) 0 0 0) = true /\
  forallb (fun T => negb (is_nan (calcular_presion_vapor Ref.np T 0 0 (-700) 0 0 0)))
          (firstn 999 T_range) = true.
Proof. vm_compute. auto 6. Qed.

End SearchExamples.

(** * The pair selector: building and splitting the selection string *)

Section Selector.

Local Open Scope string_scope.

Lemma split_length sep s : length (split sep s) = S (ocurrencias sep s).
Proof.
  induction s as [|ch rest IH]; [reflexivity|].
  cbn [split ocurrencias]. destruct (Ascii.eqb ch sep).
  - cbn [length]. now rewrite IH.
  - destruct (split sep rest) as [|w ws]; [discriminate IH|exact IH].
Qed.

Lemma split_sin_separador sep s : ocurrencias sep s = 0%nat -> split sep s = [s].
Proof.
  induction s as [|ch rest IH]; [reflexivity|].
  cbn [split ocurrencias]. destruct (Ascii.eqb ch sep); [discriminate|].
  intros H. now rewrite (IH H).
Qed.

Lemma split_app sep s1 s2 :
  ocurrencias sep s1 = 0%nat ->
  split sep (s1 ++ String sep s2) = s1 :: split sep s2.
Proof.
  induction s1 as [|ch rest IH].
  - intros _. cbn [append split]. now rewrite Ascii.eqb_refl.
  - cbn [append split ocurrencias]. destruct (Ascii.eqb ch sep); [discriminate|].
    intros H. now rewrite (IH H).
Qed.

Lemma ocurrencias_app sep s1 s2 :
  ocurrencias sep (s1 ++ s2) = (ocurrencias sep s1 + ocurrencias sep s2)%nat.
Proof.
  induction s1 as [|ch rest IH]; [reflexivity|].
  cbn [append ocurrencias]. destruct (Ascii.eqb ch sep); rewrite IH; reflexivity.
Qed.

Lemma ocurrencias_valor sep c1 c2 :
  ocurrencias sep (c1 ++ String sep c2) =
  S (ocurrencias sep c1 + ocurrencias sep c2).
Proof.
  rewrite ocurrencias_app. cbn [ocurrencias]. rewrite Ascii.eqb_refl. lia.
Qed.

(** X1: the selection string the layout builds from two component names
    that contain no bar splits back into exactly those two names. *)
Theorem split_valor_par (c1 c2 : string) :
  ocurrencias "|" c1 = 0%nat -> ocurrencias "|" c2 = 0%nat ->
  split "|" (c1 ++ "|" ++ c2) = [c1; c2].
Proof.
  intros H1 H2. change ("|" ++ c2) with (String "|" c2).
  rewrite split_app by exact H1. now rewrite split_sin_separador.
Qed.

Lemma split_valor_par_witness : split "|" ("agua" ++ "|" ++ "etanol") = ["agua"; "etanol"].
Proof. apply split_valor_par; reflexivity. Defined.

End Selector.

(** * The callback [actualizar_graficos] *)

Section Callback.

Import IEEE.

Variable np : numpy.

Lemma ebullicion_total P a b c d e f :
  exists T, calcular_ebullicion np P a b c d e f = OK T /\ In T T_range.
Proof.
  destruct (ebullicion_spec np P a b c d e f) as (idx & Hidx & Hres & _).
  exists (item T_range idx). split; [exact Hres|].
  apply item_In. now rewrite T_range_length.
Qed.

Lemma ebullicion_fila_total P r :
  exists T, ebullicion_fila np P r = OK T /\ In T T_range.
Proof. apply ebullicion_total. Qed.

Lemma mapM_Forall2 {A B : Type} (k : A -> result B) (R : A -> B -> Prop) l :
  (forall x, In x l -> exists y, k x = OK y /\ R x y) ->
  exists ys, mapM k l = OK ys /\ Forall2 R l ys.
Proof.
  induction l as [|x l IH]; intros H.
  - exists []. split; [reflexivity|constructor].
  - destruct (H x (or_introl eq_refl)) as (y & Hy & Hr).
    destruct IH as (ys & Hys & Hall); [intros x' Hx'; apply H; now right|].
    exists (y :: ys). split; [|now constructor].
    cbn [mapM]. rewrite Hy. cbn [bind]. rewrite Hys. reflexivity.
Qed.

(** Two grid temperatures are at most 500 apart. *)
Lemma T_range_separacion :
  forallb (fun x => forallb (fun y => (0 <=? abs (y - x)) && (abs (y - x) <=? 500))
                            T_range) T_range = true.
Proof. vm_compute. reflexivity. Qed.

Lemma T_range_diferencia x y :
  In x T_range -> In y T_range ->
  (0 <=? abs (y - x)) = true /\ (abs (y - x) <=? 500) = true.
Proof.
  intros Hx Hy. apply andb_prop.
  pose proof (forallb_In _ _ T_range_separacion x Hx) as H.
  exact (forallb_In _ _ H y Hy).
Qed.

Lemma seleccionar_primera df nombre :
  In nombre (map Component df) ->
  exists r rs, seleccionar df nombre = r :: rs /\ primera_fila df nombre r.
Proof.
  induction df as [|r0 df IH]; [intros []|].
  intros Hin. unfold seleccionar. cbn [filter].
  destruct (String.eqb (Component r0) nombre) eqn:E.
  - apply String.eqb_eq in E. eexists _, _. split; [reflexivity|].
    exists [], df. repeat apply conj; auto.
  - apply String.eqb_neq in E. destruct Hin as [Hin|Hin]; [contradiction|].
    destruct (IH Hin) as (r & rs & Hsel & antes & despues & Hdf & Hname & Hantes).
    exists r, rs. split; [exact Hsel|].
    exists (r0 :: antes), despues. repeat apply conj.
    + cbn [app]. now rewrite Hdf.
    + exact Hname.
    + intros r' [<-|Hr']; auto.
Qed.

Lemma length_set_last y stop : y <> [] -> length (set_last y stop) = length y.
Proof.
  intros Hy. unfold set_last.
  rewrite (app_removelast_last nan Hy) at 2.
  rewrite !length_app. reflexivity.
Qed.

Lemma linspace_length start stop num : length (linspace start stop num) = num.
Proof.
  unfold linspace.
  assert (Hmap : forall h g, length (map (fun v => v + start) (map h (arange g))) = g).
  { intros h g. unfold arange. now rewrite !length_map, length_seq. }
  destruct (Nat.ltb_spec 1 num) as [Hn|Hn].
  - rewrite length_set_last.
    + destruct (0 <? num - 1)%nat; [destruct (_ =? 0)|]; apply Hmap.
    + intros E. apply (f_equal (@length float)) in E.
      destruct (0 <? num - 1)%nat; [destruct (_ =? 0)|];
        rewrite Hmap in E; cbn in E; lia.
  - destruct (0 <? num - 1)%nat; [destruct (_ =? 0)|]; apply Hmap.
Qed.

Lemma linspace_last start stop num :
  (2 <= num)%nat -> last (linspace start stop num) nan = stop.
Proof.
  intros Hn. unfold linspace.
  destruct (Nat.ltb_spec 1 num) as [H|H]; [|lia].
  unfold set_last. apply last_last.
Qed.

End Callback.

Section CallbackFigures.

Import IEEE.

Variable np : numpy.
Variable df : DataFrame.
Variables Tmin Tmax Ptarget : float.
Variable componentes_seleccionados : list string.

(** The trace the loop draws for a row. *)
Let traza (r : fila) : string * list float * list float :=
  (Component r, linspace Tmin Tmax 300,
   map (fun T => calcular_presion_vapor np T (col_a r) (col_b r) (col_c r)
                   (col_d r) (col_e r) (col_f r))
       (linspace Tmin Tmax 300)).

(** The bar the loop draws for a row: its name and its boiling temperature. *)
Let barra (r : fila) (b : string * float) : Prop :=
  fst b = Component r /\ ebullicion_fila np Ptarget r = OK (snd b) /\
  In (snd b) T_range.

Lemma fold_trazar rows :
  forall presion ebull,
  exists barras,
    fold_left (trazar np (linspace Tmin Tmax 300) Ptarget) rows (presion, ebull) =
    (presion ++ map traza rows, ebull ++ barras) /\
    Forall2 barra rows barras.
Proof.
  induction rows as [|r rows IH]; intros presion ebull.
  - exists []. split; [|constructor]. cbn [fold_left map]. now rewrite !app_nil_r.
  - cbn [fold_left]. unfold trazar at 2. cbn [fst snd].
    destruct (ebullicion_fila_total np Ptarget r) as (T & HT & Hin). rewrite HT.
    destruct (IH (presion ++ [traza r]) (ebull ++ [(Component r, T)]))
      as (barras & Hfold & Hall).
    exists ((Component r, T) :: barras). split.
    + unfold traza in *. rewrite Hfold. cbn [map]. now rewrite <- !app_assoc.
    + constructor; [|exact Hall]. repeat apply conj; auto.
Qed.

(** What one call of the callback computes when the selection names two
    components of the table. *)
Lemma actualizar_graficos_spec par_componentes nombre1 nombre2 :
  split "|"%char par_componentes = [nombre1; nombre2] ->
  In nombre1 (map Component df) -> In nombre2 (map Component df) ->
  exists fila1 fila2 T1 T2 barras diferencias,
    primera_fila df nombre1 fila1 /\
    primera_fila df nombre2 fila2 /\
    ebullicion_fila np Ptarget fila1 = OK T1 /\ In T1 T_range /\
    ebullicion_fila np Ptarget fila2 = OK T2 /\ In T2 T_range /\
    Forall2 barra (df_filtrado df componentes_seleccionados) barras /\
    Forall2 (fun P y =>
               exists t1 t2,
                 ebullicion_fila np P fila1 = OK t1 /\ In t1 T_range /\
                 ebullicion_fila np P fila2 = OK t2 /\ In t2 T_range /\
                 y = abs (t2 - t1))
            (linspace 10 5000 200) diferencias /\
    actualizar_graficos np df Tmin Tmax Ptarget componentes_seleccionados
                        par_componentes =
    OK {| fig_presion := map traza (df_filtrado df componentes_seleccionados);
          fig_ebullicion := barras;
          fig_dif := ((nombre2 ++ " - " ++ nombre1)%string, abs (T2 - T1));
          fig_dif_vs_P := (linspace 10 5000 200, diferencias) |}.
Proof.
  intros Hsplit H1 H2.
  destruct (seleccionar_primera df nombre1 H1) as (fila1 & rs1 & Hs1 & Hp1).
  destruct (seleccionar_primera df nombre2 H2) as (fila2 & rs2 & Hs2 & Hp2).
  destruct (ebullicion_fila_total np Ptarget fila1) as (T1 & HT1 & Hin1).
  destruct (ebullicion_fila_total np Ptarget fila2) as (T2 & HT2 & Hin2).
  destruct (fold_trazar (df_filtrado df componentes_seleccionados) [] [])
    as (barras & Hfold & Hbarras).
  destruct (mapM_Forall2
              (fun P => t1 <- ebullicion_fila np P fila1 ;;
                        t2 <- ebullicion_fila np P fila2 ;;
                        OK (abs (t2 - t1)))
              (fun P y =>
                 exists t1 t2,
                   ebullicion_fila np P fila1 = OK t1 /\ In t1 T_range /\
                   ebullicion_fila np P fila2 = OK t2 /\ In t2 T_range /\
                   y = abs (t2 - t1))
              (linspace 10 5000 200)) as (diferencias & Hmap & Hdif).
  { intros P _.
    destruct (ebullicion_fila_total np P fila1) as (t1 & Ht1 & Hi1).
    destruct (ebullicion_fila_total np P fila2) as (t2 & Ht2 & Hi2).
    exists (abs (t2 - t1)). split.
    - rewrite Ht1. cbn [bind]. rewrite Ht2. reflexivity.
    - exists t1, t2. auto 6. }
  exists fila1, fila2, T1, T2, barras, diferencias.
  repeat apply conj; auto.
  unfold actualizar_graficos. rewrite Hsplit. cbv zeta.
  rewrite Hs1, Hs2. cbn [iloc0 bind]. rewrite HT1. cbn [bind]. rewrite HT2.
  cbn [bind]. rewrite Hmap. cbn [bind].
  fold (df_filtrado df componentes_seleccionados). rewrite Hfold.
  reflexivity.
Qed.

End CallbackFigures.

Section CallbackProperties.

Variable np : numpy.
Variable df : DataFrame.
Variables Tmin Tmax Ptarget : float.
Variable componentes_seleccionados : list string.

(** X2: when the selection names two components of the table, the callback
    returns its figures; the bar of [fig_dif] is labelled
    [nombre2 - nombre1] and its height is [abs(T2 - T1)], the boiling
    temperatures of the first rows carrying those names, a number between 0
    and 500. *)
Theorem actualizar_graficos_fig_dif (par_componentes nombre1 nombre2 : string) :
  split "|"%char par_componentes = [nombre1; nombre2] ->
  In nombre1 (map Component df) -> In nombre2 (map Component df) ->
  exists figs fila1 fila2 T1 T2,
    actualizar_graficos np df Tmin Tmax Ptarget componentes_seleccionados
                        par_componentes = OK figs /\
    primera_fila df nombre1 fila1 /\ primera_fila df nombre2 fila2 /\
    ebullicion_fila np Ptarget fila1 = OK T1 /\
    ebullicion_fila np Ptarget fila2 = OK T2 /\
    fig_dif figs = ((nombre2 ++ " - " ++ nombre1)%string, abs (T2 - T1)) /\
    (0 <=? abs (T2 - T1)) = true /\ (abs (T2 - T1) <=? 500) = true.
Proof.
  intros Hsplit H1 H2.
  destruct (actualizar_graficos_spec np df Tmin Tmax Ptarget componentes_seleccionados
              par_componentes nombre1 nombre2 Hsplit H1 H2)
    as (fila1 & fila2 & T1 & T2 & barras & difs & Hp1 & Hp2 & HT1 & Hi1 & HT2 & Hi2
        & _ & _ & Hres).
  destruct (T_range_diferencia T1 T2 Hi1 Hi2) as [Hlo Hhi].
  eexists _, fila1, fila2, T1, T2. split; [exact Hres|].
  repeat apply conj; auto.
Qed.

(** X3: in the same situation [fig_dif_vs_P] plots 200 points: the
    pressures are [linspace(10, 5000, 200)] and the value at each pressure
    is [abs(t2 - t1)] for the boiling temperatures of the two rows at that
    pressure, between 0 and 500. *)
Theorem actualizar_graficos_fig_dif_vs_P (par_componentes nombre1 nombre2 : string) :
  split "|"%char par_componentes = [nombre1; nombre2] ->
  In nombre1 (map Component df) -> In nombre2 (map Component df) ->
  exists figs fila1 fila2,
    actualizar_graficos np df Tmin Tmax Ptarget componentes_seleccionados
                        par_componentes = OK figs /\
    primera_fila df nombre1 fila1 /\ primera_fila df nombre2 fila2 /\
    fst (fig_dif_vs_P figs) = linspace 10 5000 200 /\
    length (fst (fig_dif_vs_P figs)) = 200%nat /\
    length (snd (fig_dif_vs_P figs)) = 200%nat /\
    Forall2 (fun P y =>
               exists t1 t2,
                 ebullicion_fila np P fila1 = OK t1 /\
                 ebullicion_fila np P fila2 = OK t2 /\
                 y = abs (t2 - t1) /\
                 (0 <=? y) = true /\ (y <=? 500) = true)
            (fst (fig_dif_vs_P figs)) (snd (fig_dif_vs_P figs)).
Proof.
  intros Hsplit H1 H2.
  destruct (actualizar_graficos_spec np df Tmin Tmax Ptarget componentes_seleccionados
              par_componentes nombre1 nombre2 Hsplit H1 H2)
    as (fila1 & fila2 & T1 & T2 & barras & difs & Hp1 & Hp2 & _ & _ & _ & _
        & _ & Hdif & Hres).
  eexists _, fila1, fila2. split; [exact Hres|]. cbn [fig_dif_vs_P fst snd].
  repeat apply conj; [exact Hp1|exact Hp2|reflexivity| | |].
  - apply linspace_length.
  - rewrite <- (Forall2_length Hdif). apply linspace_length.
  - eapply Forall2_impl; [|exact Hdif].
    intros P y (t1 & t2 & Ht1 & Hi1 & Ht2 & Hi2 & ->).
    destruct (T_range_diferencia t1 t2 Hi1 Hi2) as [Hlo Hhi].
    exists t1, t2. auto 6.
Qed.

Lemma df_filtrado_vacio : df_filtrado df [] = [].
Proof.
  unfold df_filtrado. induction df as [|r rows IH]; [reflexivity|].
  cbn [filter existsb]. exact IH.
Qed.

(** X4: in the same situation [fig_presion] holds one trace per selected
    row of the table, in table order, with the 300 temperatures
    [linspace(Tmin, Tmax, 300)] and the pressure of
    [calcular_presion_vapor] at each; [fig_ebullicion] holds one bar for
    each of the same rows, a grid temperature (the [except] branch never
    drops one); with no component selected both are empty. *)
Theorem actualizar_graficos_trazas (par_componentes nombre1 nombre2 : string) :
  split "|"%char par_componentes = [nombre1; nombre2] ->
  In nombre1 (map Component df) -> In nombre2 (map Component df) ->
  exists figs,
    actualizar_graficos np df Tmin Tmax Ptarget componentes_seleccionados
                        par_componentes = OK figs /\
    fig_presion figs =
      map (fun r =>
             (Component r, linspace Tmin Tmax 300,
              map (fun T => calcular_presion_vapor np T (col_a r) (col_b r) (col_c r)
                              (col_d r) (col_e r) (col_f r))
                  (linspace Tmin Tmax 300)))
          (df_filtrado df componentes_seleccionados) /\
    Forall (fun tr => length (snd (fst tr)) = 300%nat /\ length (snd tr) = 300%nat)
           (fig_presion figs) /\
    Forall2 (fun r b =>
               fst b = Component r /\
               ebullicion_fila np Ptarget r = OK (snd b) /\
               In (snd b) T_range)
            (df_filtrado df componentes_seleccionados) (fig_ebullicion figs) /\
    (componentes_seleccionados = [] ->
     fig_presion figs = [] /\ fig_ebullicion figs = []).
Proof.
  intros Hsplit H1 H2.
  destruct (actualizar_graficos_spec np df Tmin Tmax Ptarget componentes_seleccionados
              par_componentes nombre1 nombre2 Hsplit H1 H2)
    as (fila1 & fila2 & T1 & T2 & barras & difs & _ & _ & _ & _ & _ & _
        & Hbarras & _ & Hres).
  eexists. split; [exact Hres|]. cbn [fig_presion fig_ebullicion].
  repeat apply conj.
  - reflexivity.
  - apply Forall_forall. intros tr Htr. apply in_map_iff in Htr.
    destruct Htr as (r & <- & _). cbn [fst snd].
    now rewrite length_map, linspace_length.
  - exact Hbarras.
  - intros ->. rewrite df_filtrado_vacio in *. split; [reflexivity|].
    now inversion Hbarras.
Qed.

(** The outcomes of the callback on a string: [ValueError] exactly when
    the string does not contain one bar; with one bar, [IndexError] when one
    of the two names is not in the table, and the figures otherwise. *)
Lemma actualizar_graficos_cadena (par_componentes : string) :
  (ocurrencias "|" par_componentes <> 1%nat /\
   actualizar_graficos np df Tmin Tmax Ptarget componentes_seleccionados
                       par_componentes = Raise ValueError) \/
  (exists nombre1 nombre2,
     ocurrencias "|" par_componentes = 1%nat /\
     split "|"%char par_componentes = [nombre1; nombre2] /\
     (~ In nombre1 (map Component df) \/ ~ In nombre2 (map Component df)) /\
     actualizar_graficos np df Tmin Tmax Ptarget componentes_seleccionados
                         par_componentes = Raise IndexError) \/
  (exists nombre1 nombre2 figs,
     ocurrencias "|" par_componentes = 1%nat /\
     split "|"%char par_componentes = [nombre1; nombre2] /\
     In nombre1 (map Component df) /\ In nombre2 (map Component df) /\
     actualizar_graficos np df Tmin Tmax Ptarget componentes_seleccionados
                         par_componentes = OK figs).
Proof.
  pose proof (split_length "|"%char par_componentes) as Hlen.
  destruct (split "|"%char par_componentes) as [|n1 [|n2 [|n3 l]]] eqn:Hsplit;
    cbn [length] in Hlen.
  - discriminate.
  - left. split; [lia|]. unfold actualizar_graficos. now rewrite Hsplit.
  - right.
    assert (Hocc : ocurrencias "|" par_componentes = 1%nat) by lia.
    destruct (in_dec string_dec n1 (map Component df)) as [H1|H1];
      [destruct (in_dec string_dec n2 (map Component df)) as [H2|H2]|].
    + right.
      destruct (actualizar_graficos_spec np df Tmin Tmax Ptarget
                  componentes_seleccionados par_componentes n1 n2 Hsplit H1 H2)
        as (? & ? & ? & ? & ? & ? & _ & _ & _ & _ & _ & _ & _ & _ & Hres).
      eexists n1, n2, _. repeat apply conj; auto. exact Hres.
    + left. exists n1, n2. repeat apply conj; auto.
      unfold actualizar_graficos. rewrite Hsplit. cbv zeta.
      destruct (seleccionar_primera df n1 H1) as (r & rs & -> & _).
      cbn [iloc0 bind]. rewrite (seleccionar_absent df n2 H2). reflexivity.
    + left. exists n1, n2. repeat apply conj; auto.
      unfold actualizar_graficos. rewrite Hsplit. cbv zeta.
      rewrite (seleccionar_absent df n1 H1). reflexivity.
  - left. split; [lia|]. unfold actualizar_graficos. now rewrite Hsplit.
Qed.

(** X5: the outcomes of a call of the callback, for slider values and a
    list of selected components.  A cleared pair selector ([None]) raises
    [AttributeError]; a string raises [ValueError] exactly when it does not
    contain one bar; with one bar it raises [IndexError] when one of the two
    names is not in the table, and returns the figures otherwise.  No call
    raises [KeyError]. *)
Theorem actualizar_graficos_resultado (par_componentes : option string) :
  (par_componentes = None /\
   actualizar_graficos_llamada np df Tmin Tmax Ptarget componentes_seleccionados
                               par_componentes = Raise AttributeError) \/
  (exists par,
     par_componentes = Some par /\
     ocurrencias "|" par <> 1%nat /\
     actualizar_graficos_llamada np df Tmin Tmax Ptarget componentes_seleccionados
                                 par_componentes = Raise ValueError) \/
  (exists par nombre1 nombre2,
     par_componentes = Some par /\
     ocurrencias "|" par = 1%nat /\
     split "|"%char par = [nombre1; nombre2] /\
     (~ In nombre1 (map Component df) \/ ~ In nombre2 (map Component df)) /\
     actualizar_graficos_llamada np df Tmin Tmax Ptarget componentes_seleccionados
                                 par_componentes = Raise IndexError) \/
  (exists par nombre1 nombre2 figs,
     par_componentes = Some par /\
     ocurrencias "|" par = 1%nat /\
     split "|"%char par = [nombre1; nombre2] /\
     In nombre1 (map Component df) /\ In nombre2 (map Component df) /\
     actualizar_graficos_llamada np df Tmin Tmax Ptarget componentes_seleccionados
                                 par_componentes = OK figs).
Proof.
  destruct par_componentes as [par|]; [right|left; split; reflexivity].
  cbn [actualizar_graficos_llamada].
  destruct (actualizar_graficos_cadena par)
    as [[Hocc Hres]|[(n1 & n2 & Hocc & Hsplit & Habs & Hres)
                    |(n1 & n2 & figs & Hocc & Hsplit & H1 & H2 & Hres)]].
  - left. exists par. auto.
  - right; left. exists par, n1, n2. auto 6.
  - right; right. exists par, n1, n2, figs. auto 7.
Qed.

End CallbackProperties.

Lemma actualizar_graficos_fig_dif_witness :
  exists figs fila1 fila2 T1 T2,
    actualizar_graficos Ref.np tabla_dos 250 550 101.325 ["agua"%string]
                        "agua|etanol" = OK figs /\
    primera_fila tabla_dos "agua" fila1 /\ primera_fila tabla_dos "etanol" fila2 /\
    ebullicion_fila Ref.np 101.325 fila1 = OK T1 /\
    ebullicion_fila Ref.np 101.325 fila2 = OK T2 /\
    fig_dif figs = ("etanol - agua"%string, abs (T2 - T1)) /\
    (0 <=? abs (T2 - T1)) = true /\ (abs (T2 - T1) <=? 500) = true.
Proof.
  apply (actualizar_graficos_fig_dif Ref.np tabla_dos 250 550 101.325
           ["agua"%string] "agua|etanol" "agua" "etanol").
  - reflexivity.
  - cbn. auto.
  - cbn. auto.
Defined.

Lemma actualizar_graficos_fig_dif_vs_P_witness :
  exists figs,
    actualizar_graficos Ref.np tabla_dos 250 550 101.325 ["agua"%string]
                        "agua|etanol" = OK figs /\
    length (snd (fig_dif_vs_P figs)) = 200%nat.
Proof.
  destruct (actualizar_graficos_fig_dif_vs_P Ref.np tabla_dos 250 550 101.325
              ["agua"%string] "agua|etanol" "agua" "etanol")
    as (figs & _ & _ & Hres & _ & _ & _ & _ & Hlen & _).
  - reflexivity.
  - cbn. auto.
  - cbn. auto.
  - exists figs. auto.
Defined.

Lemma actualizar_graficos_trazas_witness :
  exists figs,
    actualizar_graficos Ref.np tabla_dos 250 550 101.325 ["agua"%string]
                        "agua|etanol" = OK figs /\
    Forall (fun tr => length (snd (fst tr)) = 300%nat /\ length (snd tr) = 300%nat)
           (fig_presion figs) /\
    length (fig_ebullicion figs) = 1%nat.
Proof.
  destruct (actualizar_graficos_trazas Ref.np tabla_dos 250 550 101.325
              ["agua"%string] "agua|etanol" "agua" "etanol")
    as (figs & Hres & _ & Hlen & Hbar & _).
  - reflexivity.
  - cbn. auto.
  - cbn. auto.
  - exists figs. repeat apply conj; auto.
    rewrite <- (Forall2_length Hbar). reflexivity.
Defined.

(** * More on NaN and infinite operands *)

Section Operands.

Import IEEE.

Lemma div_nan_l x y : is_nan x = true -> is_nan (x / y) = true.
Proof.
  rewrite !is_nan_SF, div_spec.
  destruct (Prim2SF x); try discriminate; reflexivity.
Qed.

Lemma div_nan_r x y : is_nan y = true -> is_nan (x / y) = true.
Proof.
  rewrite !is_nan_SF, div_spec.
  destruct (Prim2SF y); try discriminate; intros _; destruct (Prim2SF x); reflexivity.
Qed.

Lemma mul_nan_l x y : is_nan x = true -> is_nan (x * y) = true.
Proof.
  rewrite !is_nan_SF, mul_spec.
  destruct (Prim2SF x); try discriminate; reflexivity.
Qed.

(** A non-zero number divided by a zero is an infinity. *)
Lemma div_zero_infinite x y :
  is_nan x = false -> (x =? 0) = false -> (y =? 0) = true ->
  is_infinity (x / y) = true.
Proof.
  rewrite is_nan_SF, !is_zero_SF, is_infinity_SF, div_spec.
  destruct (Prim2SF y) as [?|?| |? ? ?]; try discriminate;
    destruct (Prim2SF x) as [?|?| |? ? ?]; try discriminate; reflexivity.
Qed.

Lemma add_finite_infinite x y :
  is_finite x = true -> is_infinity y = true -> x + y = y.
Proof.
  rewrite is_finite_SF, is_infinity_SF. intros Hx Hy.
  apply Prim2SF_inj. rewrite add_spec.
  destruct (Prim2SF y) as [?|sy| |? ? ?]; try discriminate.
  destruct (Prim2SF x) as [?|?| |? ? ?]; try discriminate; reflexivity.
Qed.

Lemma add_infinite_finite x y :
  is_infinity x = true -> is_finite y = true -> x + y = x.
Proof.
  rewrite is_finite_SF, is_infinity_SF. intros Hx Hy.
  apply Prim2SF_inj. rewrite add_spec.
  destruct (Prim2SF x) as [?|sx| |? ? ?]; try discriminate.
  destruct (Prim2SF y) as [?|?| |? ? ?]; try discriminate; reflexivity.
Qed.

Lemma infinite_cases x : is_infinity x = true -> x = infinity \/ x = neg_infinity.
Proof.
  intros H. destruct (nonfinite_cases x) as [Hn|H'].
  - unfold is_finite. rewrite H. now rewrite orb_true_r.
  - rewrite is_nan_SF in Hn. rewrite is_infinity_SF in H.
    destruct (Prim2SF x); discriminate.
  - exact H'.
Qed.

End Operands.

(** * Missing data and the pole of the Antoine term *)

Section Degenerate.

Import IEEE.

Variable np : numpy.
Hypothesis laws : ieee_special np.

(** A NaN coefficient makes every grid pressure a NaN. *)
Lemma presion_nan (T a b c d e f : float) :
  is_nan a = true \/ is_nan b = true \/ is_nan c = true \/
  is_nan d = true \/ is_nan e = true ->
  is_nan (calcular_presion_vapor np T a b c d e f) = true.
Proof.
  intros H. unfold calcular_presion_vapor. apply (exp_nan np laws).
  destruct H as [H|[H|[H|[H|H]]]].
  - now apply add_nan_l, add_nan_l, add_nan_l.
  - apply add_nan_l, add_nan_l, add_nan_r. now apply div_nan_l.
  - apply add_nan_l, add_nan_l, add_nan_r, div_nan_r. now apply add_nan_r.
  - apply add_nan_l, add_nan_r. now apply mul_nan_l.
  - apply add_nan_r. now apply mul_nan_l.
Qed.

(** X6: a NaN among the temperature and the coefficients [a], [b], [c],
    [d], [e] makes the pressure a NaN. *)
Theorem calcular_presion_vapor_nan (T a b c d e f : float) :
  is_nan T = true \/ is_nan a = true \/ is_nan b = true \/ is_nan c = true \/
  is_nan d = true \/ is_nan e = true ->
  is_nan (calcular_presion_vapor np T a b c d e f) = true.
Proof.
  intros H. unfold calcular_presion_vapor. apply (exp_nan np laws).
  destruct H as [H|[H|[H|[H|[H|H]]]]].
  - apply add_nan_l, add_nan_l, add_nan_r, div_nan_r. now apply add_nan_l.
  - now apply add_nan_l, add_nan_l, add_nan_l.
  - apply add_nan_l, add_nan_l, add_nan_r. now apply div_nan_l.
  - apply add_nan_l, add_nan_l, add_nan_r, div_nan_r. now apply add_nan_r.
  - apply add_nan_l, add_nan_r. now apply mul_nan_l.
  - apply add_nan_r. now apply mul_nan_l.
Qed.

(** X7: at the pole [T + c == 0] the quotient decides the pressure.  With
    [b == 0] it is [0/0] and the pressure is a NaN; with a non-zero [b] and
    the other three terms finite the exponent is the infinite quotient
    itself and the pressure is [+inf] or 0, never a NaN. *)
Theorem calcular_presion_vapor_polo (T a b c d e f : float) :
  (T + c =? 0) = true ->
  ((b =? 0) = true -> is_nan (calcular_presion_vapor np T a b c d e f) = true) /\
  (is_nan b = false -> (b =? 0) = false ->
   is_finite a = true ->
   is_finite (d * np_log np T) = true ->
   is_finite (e * np_power np T f) = true ->
   a + b / (T + c) + d * np_log np T + e * np_power np T f = b / (T + c) /\
   (calcular_presion_vapor np T a b c d e f = infinity \/
    calcular_presion_vapor np T a b c d e f = 0)).
Proof.
  intros Hpole. split.
  - intros Hb. unfold calcular_presion_vapor. apply (exp_nan np laws).
    apply add_nan_l, add_nan_l, add_nan_r. now apply zero_div_zero.
  - intros Hnan Hnz Ha Hl Hw.
    pose proof (div_zero_infinite b (T + c) Hnan Hnz Hpole) as Hq.
    assert (E : a + b / (T + c) + d * np_log np T + e * np_power np T f
                = b / (T + c)).
    { rewrite (add_finite_infinite a _ Ha Hq).
      rewrite (add_infinite_finite _ _ Hq Hl).
      now rewrite (add_infinite_finite _ _ Hq Hw). }
    split; [exact E|].
    unfold calcular_presion_vapor. rewrite E.
    destruct (infinite_cases _ Hq) as [-> | ->].
    + left. now apply (exp_overflow np laws).
    + right. now apply (exp_underflow np laws).
Qed.

(** X8: with a NaN target, or a NaN among the coefficients [a], [b], [c],
    [d], [e], the search returns 200, the first grid temperature, and
    raises nothing. *)
Theorem calcular_ebullicion_nan (P_objetivo a b c d e f : float) :
  is_nan P_objetivo = true \/ is_nan a = true \/ is_nan b = true \/
  is_nan c = true \/ is_nan d = true \/ is_nan e = true ->
  calcular_ebullicion np P_objetivo a b c d e f = OK 200.
Proof.
  intros H.
  destruct (ebullicion_spec np P_objetivo a b c d e f) as (idx & Hidx & Hres & Hpost).
  assert (H0 : first_nan (map (diferencia np P_objetivo a b c d e f) T_range) 0).
  { repeat apply conj.
    - rewrite length_map, T_range_length. lia.
    - rewrite dif_item by lia. unfold diferencia. rewrite abs_nan.
      destruct H as [H|H].
      + now apply sub_nan_r.
      + apply sub_nan_l, presion_nan. exact H.
    - intros k Hk. lia. }
  assert (Hi : first_nan (map (diferencia np P_objetivo a b c d e f) T_range) idx).
  { apply (argmin_post_nan _ _ 0%nat); [exact Hpost| |apply H0].
    rewrite length_map, T_range_length. lia. }
  rewrite (first_nan_unique _ _ _ Hi H0) in Hres.
  now rewrite Hres, T_range_first.
Qed.

End Degenerate.

Lemma calcular_presion_vapor_nan_witness :
  is_nan (calcular_presion_vapor Ref.np 300 16.3872 nan 230.170 0 0 0) = true.
Proof.
  apply (calcular_presion_vapor_nan Ref.np Ref_ieee_special).
  right; right; left. reflexivity.
Defined.

Lemma calcular_presion_vapor_polo_witness :
  is_nan (calcular_presion_vapor Ref.np 1 0 0 (-1) 0 0 0) = true /\
  (calcular_presion_vapor Ref.np 1 0 (-1) (-1) 0 0 0 = infinity \/
   calcular_presion_vapor Ref.np 1 0 (-1) (-1) 0 0 0 = 0).
Proof.
  split.
  - apply (calcular_presion_vapor_polo Ref.np Ref_ieee_special 1 0 0 (-1) 0 0 0);
      vm_compute; reflexivity.
  - apply (calcular_presion_vapor_polo Ref.np Ref_ieee_special 1 0 (-1) (-1) 0 0 0);
      vm_compute; reflexivity.
Defined.

Lemma calcular_ebullicion_nan_witness :
  calcular_ebullicion Ref.np 101.325 16.3872 nan 230.170 0 0 0 = OK 200.
Proof.
  apply (calcular_ebullicion_nan Ref.np Ref_ieee_special).
  right; right; left. reflexivity.
Defined.

(** * The layout: components and pair options *)

Section Layout.

Lemma existsb_eqb_In x l : existsb (String.eqb x) l = true <-> In x l.
Proof.
  rewrite existsb_exists. split.
  - intros (y & Hy & E). apply String.eqb_eq in E. now subst.
  - intros H. exists x. split; [exact H|apply String.eqb_refl].
Qed.

Lemma unique_desde_In vistos l x :
  In x (unique_desde vistos l) <-> In x l /\ ~ In x vistos.
Proof.
  revert vistos. induction l as [|y l IH]; intros vistos; cbn [unique_desde].
  - split; [intros []|intros [[] _]].
  - destruct (existsb (String.eqb y) vistos) eqn:E.
    + apply existsb_eqb_In in E. rewrite IH. split.
      * intros [H1 H2]. split; [now right|exact H2].
      * intros [[->|H1] H2]; [contradiction|now split].
    + assert (Hy : ~ In y vistos)
        by (intros H; apply existsb_eqb_In in H; congruence).
      cbn [In]. rewrite IH. cbn [In]. split.
      * intros [->|[H1 H2]]; [now split; [left|]|].
        split; [now right|tauto].
      * intros [[->|H1] H2]; [now left|].
        destruct (string_dec y x) as [->|Hne]; [now left|right]. tauto.
Qed.

Lemma unique_desde_NoDup vistos l : NoDup (unique_desde vistos l).
Proof.
  revert vistos. induction l as [|y l IH]; intros vistos; cbn [unique_desde].
  - constructor.
  - destruct (existsb (String.eqb y) vistos); [apply IH|].
    constructor; [|apply IH].
    rewrite unique_desde_In. cbn [In]. tauto.
Qed.

Lemma unique_In l x : In x (unique l) <-> In x l.
Proof. unfold unique. rewrite unique_desde_In. cbn [In]. tauto. Qed.

Lemma unique_NoDup l : NoDup (unique l).
Proof. apply unique_desde_NoDup. Qed.

Lemma componentes_disponibles_In df x :
  In x (componentes_disponibles df) <-> In x (map Component df).
Proof. apply unique_In. Qed.

(** The option built from two names. *)
Let opcion (c1 c2 : string) : string * string :=
  ((c1 ++ " - " ++ c2)%string, (c1 ++ "|" ++ c2)%string).

Let opciones_en (en : list (nat * string)) : list (string * string) :=
  flat_map
    (fun ic1 =>
       flat_map
         (fun jc2 =>
            if (fst ic1 <? fst jc2)%nat then [opcion (snd ic1) (snd jc2)] else [])
         en)
    en.

Let enum_desde (k : nat) (l : list string) : list (nat * string) :=
  combine (seq k (length l)) l.

Lemma enum_desde_indices k l p : In p (enum_desde k l) -> (k <= fst p)%nat.
Proof.
  intros H. destruct p as [i c]. apply in_combine_l in H.
  apply in_seq in H. cbn [fst]. lia.
Qed.

Lemma enum_desde_snd k l : map snd (enum_desde k l) = l.
Proof.
  revert k. induction l as [|c l IH]; intros k; [reflexivity|].
  unfold enum_desde in *. cbn [length seq combine map snd]. now rewrite IH.
Qed.

Lemma flat_map_agree {A B : Type} (g h : A -> list B) l :
  (forall x, In x l -> g x = h x) -> flat_map g l = flat_map h l.
Proof.
  induction l as [|x l IH]; intros H; [reflexivity|].
  cbn [flat_map]. rewrite (H x (or_introl eq_refl)), IH; [reflexivity|].
  intros y Hy. apply H. now right.
Qed.

Lemma flat_map_singletons {A B : Type} (h : A -> B) l :
  flat_map (fun x => [h x]) l = map h l.
Proof. induction l as [|x l IH]; [reflexivity|]. cbn. now rewrite IH. Qed.

Lemma opciones_en_pares l :
  forall k, opciones_en (enum_desde k l) =
            map (fun p => opcion (fst p) (snd p)) (pares l).
Proof.
  induction l as [|c l IH]; intros k; [reflexivity|].
  change (enum_desde k (c :: l)) with ((k, c) :: enum_desde (S k) l).
  unfold opciones_en. cbn [flat_map fst snd pares].
  rewrite Nat.ltb_irrefl. cbn [app].
  rewrite map_app, map_map. cbn [fst snd]. f_equal.
  - rewrite (flat_map_agree _ (fun jc2 => [opcion c (snd jc2)])).
    + rewrite flat_map_singletons, <- (map_map snd (opcion c)).
      now rewrite enum_desde_snd.
    + intros p Hp. apply enum_desde_indices in Hp.
      destruct (Nat.ltb_spec k (fst p)); [reflexivity|lia].
  - rewrite <- (IH (S k)). unfold opciones_en.
    apply flat_map_agree. intros p Hp. apply enum_desde_indices in Hp.
    destruct (Nat.ltb_spec (fst p) k); [lia|reflexivity].
Qed.

Lemma opciones_par_pares cs :
  opciones_par cs = map (fun p => opcion (fst p) (snd p)) (pares cs).
Proof. apply (opciones_en_pares cs 0). Qed.

Lemma pares_length l : (2 * length (pares l) = length l * (length l - 1))%nat.
Proof.
  induction l as [|c l IH]; [reflexivity|].
  cbn [pares length]. rewrite length_app, length_map. nia.
Qed.

Lemma pares_In l c1 c2 :
  In (c1, c2) (pares l) <->
  exists l1 l2 l3, l = l1 ++ c1 :: l2 ++ c2 :: l3.
Proof.
  induction l as [|c l IH]; cbn [pares].
  - split; [intros []|]. intros (l1 & l2 & l3 & E). now destruct l1.
  - rewrite in_app_iff, in_map_iff, IH. split.
    + intros [(x & E & Hx)|(l1 & l2 & l3 & ->)].
      * injection E as -> ->. apply in_split in Hx. destruct Hx as (l2 & l3 & ->).
        now exists [], l2, l3.
      * now exists (c :: l1), l2, l3.
    + intros (l1 & l2 & l3 & E). destruct l1 as [|c' l1]; cbn [app] in E.
      * injection E as -> ->. left. exists c2. split; [reflexivity|].
        apply in_elt.
      * injection E as -> ->. right. now exists l1, l2, l3.
Qed.

Lemma nth_error_elt (l1 : list string) x r :
  nth_error (l1 ++ x :: r) (length l1) = Some x.
Proof. induction l1 as [|y l1 IH]; [reflexivity|exact IH]. Qed.

Lemma nth_error_elt2 (l1 l2 l3 : list string) x y :
  nth_error (l1 ++ x :: l2 ++ y :: l3) (length l1 + S (length l2)) = Some y.
Proof.
  replace (l1 ++ x :: l2 ++ y :: l3) with ((l1 ++ x :: l2) ++ y :: l3)
    by (rewrite <- app_assoc; reflexivity).
  replace (length l1 + S (length l2))%nat with (length (l1 ++ x :: l2))
    by (rewrite length_app; reflexivity).
  apply nth_error_elt.
Qed.

(** In a list without repetition an entry before another is different
    from it and is not also after it. *)
Lemma NoDup_orden l l1 l2 l3 c1 c2 :
  NoDup l -> l = l1 ++ c1 :: l2 ++ c2 :: l3 ->
  c1 <> c2 /\ ~ In (c2, c1) (pares l).
Proof.
  intros Hnd E.
  pose proof (proj1 (NoDup_nth_error l) Hnd) as Hinj.
  assert (Hlen : length l = (length l1 + S (length l2 + S (length l3)))%nat)
    by (rewrite E, !length_app; cbn [length]; rewrite length_app; reflexivity).
  assert (H1 : nth_error l (length l1) = Some c1)
    by (rewrite E; apply nth_error_elt).
  assert (H2 : nth_error l (length l1 + S (length l2)) = Some c2)
    by (rewrite E; apply nth_error_elt2).
  split.
  - intros ->. rewrite <- H2 in H1. apply Hinj in H1; lia.
  - rewrite pares_In. intros (m1 & m2 & m3 & E').
    assert (H3 : nth_error l (length m1) = Some c2)
      by (rewrite E'; apply nth_error_elt).
    assert (H4 : nth_error l (length m1 + S (length m2)) = Some c1)
      by (rewrite E'; apply nth_error_elt2).
    rewrite <- H4 in H1. apply Hinj in H1; [|lia].
    rewrite <- H3 in H2. apply Hinj in H2; lia.
Qed.

Lemma opciones_par_explicit cs :
  opciones_par cs =
  map (fun p => ((fst p ++ " - " ++ snd p)%string, (fst p ++ "|" ++ snd p)%string))
      (pares cs).
Proof. apply opciones_par_pares. Qed.

End Layout.

Section LayoutProperties.

Local Open Scope string_scope.

Variable np : numpy.
Variable df : DataFrame.

(** X9: the pair selector offers one option for every two components, the
    one that comes first in the table on the left: the options are the
    values [c1|c2] with labels [c1 - c2] over the pairs of
    [componentes_disponibles], there are [n(n-1)/2] of them, and the two
    names of an option are different components of the table that are not
    offered in the opposite order. *)
Theorem opciones_par_componentes :
  let cs := componentes_disponibles df in
  opciones_par cs =
    map (fun p => (fst p ++ " - " ++ snd p, fst p ++ "|" ++ snd p)) (pares cs) /\
  (2 * length (opciones_par cs) = length cs * (length cs - 1))%nat /\
  forall c1 c2,
    In (c1, c2) (pares cs) ->
    In c1 (map Component df) /\ In c2 (map Component df) /\
    c1 <> c2 /\ ~ In (c2, c1) (pares cs).
Proof.
  intros cs. repeat apply conj.
  - apply opciones_par_explicit.
  - rewrite opciones_par_explicit, length_map. apply pares_length.
  - intros c1 c2 H.
    destruct (proj1 (pares_In cs c1 c2) H) as (l1 & l2 & l3 & E).
    destruct (NoDup_orden cs l1 l2 l3 c1 c2 (unique_NoDup _) E) as [Hne Hrev].
    repeat apply conj; auto.
    + apply componentes_disponibles_In. fold cs. rewrite E. apply in_elt.
    + apply componentes_disponibles_In. fold cs. rewrite E.
      rewrite app_comm_cons, app_assoc. apply in_elt.
Qed.

(** X10: when the table is empty or all its rows carry the same component
    name, building the initial value of the pair selector raises
    [IndexError]. *)
Theorem valor_par_inicial_index_error :
  (forall r r', In r df -> In r' df -> Component r = Component r') ->
  valor_par_inicial (componentes_disponibles df) = Raise IndexError.
Proof.
  intros Hsame.
  pose proof (unique_NoDup (map Component df)) as Hnd.
  fold (componentes_disponibles df) in Hnd.
  destruct (componentes_disponibles df) as [|c0 [|c1 rest]] eqn:E;
    [reflexivity|reflexivity|exfalso].
  assert (H0 : In c0 (map Component df))
    by (apply componentes_disponibles_In; rewrite E; now left).
  assert (H1 : In c1 (map Component df))
    by (apply componentes_disponibles_In; rewrite E; right; now left).
  apply in_map_iff in H0. destruct H0 as (r0 & <- & Hr0).
  apply in_map_iff in H1. destruct H1 as (r1 & <- & Hr1).
  apply NoDup_cons_iff in Hnd. apply (proj1 Hnd).
  left. symmetry. now apply Hsame.
Qed.

Lemma actualizar_graficos_value_error Tmin Tmax Ptarget seleccion par :
  ocurrencias "|" par <> 1%nat ->
  actualizar_graficos np df Tmin Tmax Ptarget seleccion par = Raise ValueError.
Proof.
  intros Hocc. pose proof (split_length "|"%char par) as Hlen.
  unfold actualizar_graficos.
  destruct (split "|"%char par) as [|n1 [|n2 [|n3 l]]];
    cbn [length] in Hlen; try reflexivity.
  lia.
Qed.

Variables Tmin Tmax Ptarget : float.

(** X11: with at least two components whose first two names contain no
    bar, the initial value of the pair selector is the value of its first
    option, and the first call of the callback, with every component
    selected and that value, returns its figures. *)
Theorem actualizar_graficos_inicial (c0 c1 : string) (resto : list string) :
  componentes_disponibles df = c0 :: c1 :: resto ->
  ocurrencias "|" c0 = 0%nat -> ocurrencias "|" c1 = 0%nat ->
  valor_par_inicial (componentes_disponibles df) = OK (c0 ++ "|" ++ c1) /\
  hd_error (opciones_par (componentes_disponibles df)) =
    Some (c0 ++ " - " ++ c1, c0 ++ "|" ++ c1) /\
  exists figs,
    actualizar_graficos np df Tmin Tmax Ptarget (componentes_disponibles df)
                        (c0 ++ "|" ++ c1) = OK figs.
Proof.
  intros E H0 H1. repeat apply conj.
  - rewrite E. reflexivity.
  - rewrite opciones_par_explicit, E. reflexivity.
  - assert (Hin0 : In c0 (map Component df))
      by (apply componentes_disponibles_In; rewrite E; now left).
    assert (Hin1 : In c1 (map Component df))
      by (apply componentes_disponibles_In; rewrite E; right; now left).
    destruct (actualizar_graficos_spec np df Tmin Tmax Ptarget
                (componentes_disponibles df) (c0 ++ "|" ++ c1) c0 c1
                (split_valor_par c0 c1 H0 H1) Hin0 Hin1)
      as (? & ? & ? & ? & ? & ? & _ & _ & _ & _ & _ & _ & _ & _ & Hres).
    eexists. exact Hres.
Qed.

(** X12: every option of the pair selector whose value contains a single
    bar is accepted by the callback, whatever the components selected: it
    returns its figures; for the option labelled [c1 - c2] the bar of
    [fig_dif] is labelled the other way round, [c2 - c1]. *)
Theorem actualizar_graficos_opcion (seleccion : list string) (etiqueta valor : string) :
  In (etiqueta, valor) (opciones_par (componentes_disponibles df)) ->
  ocurrencias "|" valor = 1%nat ->
  exists figs c1 c2,
    actualizar_graficos np df Tmin Tmax Ptarget seleccion valor = OK figs /\
    etiqueta = c1 ++ " - " ++ c2 /\
    fst (fig_dif figs) = c2 ++ " - " ++ c1.
Proof.
  intros Hop Hocc. rewrite opciones_par_explicit in Hop.
  apply in_map_iff in Hop. destruct Hop as ([c1 c2] & E & Hpar).
  cbn [fst snd] in E. injection E as <- <-.
  change ("|" ++ c2) with (String "|" c2) in Hocc.
  rewrite ocurrencias_valor in Hocc.
  assert (H1 : ocurrencias "|" c1 = 0%nat) by lia.
  assert (H2 : ocurrencias "|" c2 = 0%nat) by lia.
  destruct (proj1 (pares_In _ c1 c2) Hpar) as (l1 & l2 & l3 & E).
  assert (Hin1 : In c1 (map Component df))
    by (apply componentes_disponibles_In; rewrite E; apply in_elt).
  assert (Hin2 : In c2 (map Component df))
    by (apply componentes_disponibles_In; rewrite E;
        rewrite app_comm_cons, app_assoc; apply in_elt).
  destruct (actualizar_graficos_spec np df Tmin Tmax Ptarget seleccion
              (c1 ++ "|" ++ c2) c1 c2 (split_valor_par c1 c2 H1 H2) Hin1 Hin2)
    as (? & ? & ? & ? & ? & ? & _ & _ & _ & _ & _ & _ & _ & _ & Hres).
  eexists _, c1, c2. split; [exact Hres|]. split; reflexivity.
Qed.

(** X13: a selection built from two names of which one contains a bar is
    rejected with [ValueError], also when both names are components of the
    table. *)
Theorem actualizar_graficos_nombre_con_barra (seleccion : list string)
    (c1 c2 : string) :
  (0 < ocurrencias "|" c1 + ocurrencias "|" c2)%nat ->
  actualizar_graficos np df Tmin Tmax Ptarget seleccion (c1 ++ "|" ++ c2) =
  Raise ValueError.
Proof.
  intros H. apply actualizar_graficos_value_error.
  change ("|" ++ c2) with (String "|" c2). rewrite ocurrencias_valor. lia.
Qed.

End LayoutProperties.

Lemma valor_par_inicial_index_error_witness :
  valor_par_inicial (componentes_disponibles tabla_ejemplo) = Raise IndexError.
Proof.
  apply valor_par_inicial_index_error.
  intros r r' [<-|[]] [<-|[]]. reflexivity.
Defined.

Lemma actualizar_graficos_inicial_witness :
  valor_par_inicial (componentes_disponibles tabla_dos) = OK "agua|etanol"%string /\
  hd_error (opciones_par (componentes_disponibles tabla_dos)) =
    Some ("agua - etanol", "agua|etanol")%string /\
  exists figs,
    actualizar_graficos Ref.np tabla_dos 250 550 101.325
                        (componentes_disponibles tabla_dos) "agua|etanol" = OK figs.
Proof.
  apply (actualizar_graficos_inicial Ref.np tabla_dos 250 550 101.325
           "agua" "etanol" []); reflexivity.
Defined.

Lemma actualizar_graficos_opcion_witness :
  exists figs c1 c2,
    actualizar_graficos Ref.np tabla_dos 250 550 101.325 [] "agua|etanol" = OK figs /\
    "agua - etanol"%string = (c1 ++ " - " ++ c2)%string /\
    fst (fig_dif figs) = (c2 ++ " - " ++ c1)%string.
Proof.
  apply (actualizar_graficos_opcion Ref.np tabla_dos 250 550 101.325 []
           "agua - etanol" "agua|etanol").
  - left. reflexivity.
  - reflexivity.
Defined.

Lemma actualizar_graficos_nombre_con_barra_witness :
  actualizar_graficos Ref.np tabla_dos 250 550 101.325 [] "a|b|etanol" =
  Raise ValueError.
Proof.
  apply (actualizar_graficos_nombre_con_barra Ref.np tabla_dos 250 550 101.325 []
           "a|b" "etanol").
  cbn. lia.
Defined.

Section Independence.

Variable np : numpy.
Variable df : DataFrame.

(** X14: the pair analysis depends on the target pressure and the selected
    pair only.  Two calls of the callback that differ in the temperature
    bounds and in the components selected end alike: both raise the same
    exception, or both return figures with the same [fig_dif] and the same
    [fig_dif_vs_P]. *)
Theorem actualizar_graficos_par_independiente
    (Tmin Tmax Tmin' Tmax' Ptarget : float) (seleccion seleccion' : list string)
    (par_componentes : string) :
  match actualizar_graficos np df Tmin Tmax Ptarget seleccion par_componentes,
        actualizar_graficos np df Tmin' Tmax' Ptarget seleccion' par_componentes with
  | OK figs, OK figs' =>
      fig_dif figs = fig_dif figs' /\ fig_dif_vs_P figs = fig_dif_vs_P figs'
  | Raise e, Raise e' => e = e'
  | _, _ => False
  end.
Proof.
  unfold actualizar_graficos. cbv zeta.
  destruct (split "|"%char par_componentes) as [|n1 [|n2 [|n3 l]]]; try reflexivity.
  destruct (iloc0 (seleccionar df n1)) as [fila1|e1]; cbn [bind]; [|reflexivity].
  destruct (iloc0 (seleccionar df n2)) as [fila2|e2]; cbn [bind]; [|reflexivity].
  destruct (ebullicion_fila np Ptarget fila1) as [T1|e]; cbn [bind]; [|reflexivity].
  destruct (ebullicion_fila np Ptarget fila2) as [T2|e]; cbn [bind]; [|reflexivity].
  destruct (mapM _ (linspace 10 5000 200)) as [difs|e]; cbn [bind]; [|reflexivity].
  split; reflexivity.
Qed.

End Independence.
